(** * susp.c: thread suspend and resume over a registry of suspended threads

    A shallow embedding of [src/susp.c]: the globals of the file become one
    [state] record, the two public operations [thd_suspend] and
    [thd_continue] become computations in a small monad that threads the
    state, collects the memory accesses and signals of a call in a trace,
    and stops when the C program would fault, abort or spin for ever.

    The calls are modelled one at a time, as the mutex [mut] serialises
    them: what the C library and the signalled thread do during a call is
    given to the call as an [env]. *)

From stdpp Require Import base decidable option list list_numbers functions
  strings.
From Stdlib Require Import ZArith Lia.

Local Open Scope Z_scope.

(** ** Values *)

(** [pthread_t] is an integer handle: the source compares it with [0] and
    stores [0] into a slot to mark it empty. *)
Definition pthread_t : Type := Z.

(** [pthread_t null_pthread = {0};] *)
Definition null_pthread : pthread_t := 0.

(** [int] is a 32-bit two's-complement integer.  The increments [i++] and
    [++bottom] are modelled with the wrap-around of the machine, which is
    only reached when [INT_MAX] words or more are mapped. *)
Definition INT_MAX : Z := 2147483647.
Definition INT_MIN : Z := -2147483648.

Definition int_succ (x : Z) : Z :=
  if decide (x = INT_MAX) then INT_MIN else x + 1.

Inductive signal : Type := SIGUSR1 | SIGUSR2.

Definition ENOMEM : Z := 12.
Definition EINVAL : Z := 22.

(** ** Memory

    [array] points to a heap block of [length slots] words.  The source
    indexes the block at and beyond its end, so the model keeps the words
    that follow the block in the address space ([slack]): an index past
    [slots] reads or writes there, and an index past [slack] is unmapped. *)
Record block : Type := Block {
  slots : list pthread_t;
  slack : list pthread_t
}.

Definition cells (b : block) : list pthread_t := slots b ++ slack b.

(** [array[i]] as an rvalue: [None] when the word is not mapped. *)
Definition peek (b : block) (i : Z) : option pthread_t :=
  if decide (0 <= i) then cells b !! Z.to_nat i else None.

(** [array[i] = v]: [None] when the word is not mapped. *)
Definition poke (b : block) (i : Z) (v : pthread_t) : option block :=
  if decide (0 <= i) then
    let n := Z.to_nat i in
    if decide (n < length (slots b))%nat then
      Some (Block (<[n := v]> (slots b)) (slack b))
    else if decide (n - length (slots b) < length (slack b))%nat then
      Some (Block (slots b) (<[(n - length (slots b))%nat := v]> (slack b)))
    else None
  else None.

(** ** The globals of susp.c *)
Record state : Type := State {
  mut : bool;              (* pthread_mutex_t mut: [true] while it is held *)
  sentinel : Z;            (* volatile int sentinel *)
  once : bool;             (* pthread_once_t once: [true] once the routine ran *)
  array : option block;    (* pthread_t *array: [None] is NULL *)
  bottom : Z;              (* int bottom *)
  inited : Z;              (* int inited *)
  errno : Z
}.

Definition initial_state : state :=
  {| mut := false; sentinel := 0; once := false; array := None;
     bottom := 0; inited := 0; errno := 0 |}.

Definition set_mut (v : bool) (s : state) : state :=
  State v (sentinel s) (once s) (array s) (bottom s) (inited s) (errno s).
Definition set_sentinel (v : Z) (s : state) : state :=
  State (mut s) v (once s) (array s) (bottom s) (inited s) (errno s).
Definition set_once (v : bool) (s : state) : state :=
  State (mut s) (sentinel s) v (array s) (bottom s) (inited s) (errno s).
Definition set_array (v : option block) (s : state) : state :=
  State (mut s) (sentinel s) (once s) v (bottom s) (inited s) (errno s).
Definition set_bottom (v : Z) (s : state) : state :=
  State (mut s) (sentinel s) (once s) (array s) v (inited s) (errno s).
Definition set_inited (v : Z) (s : state) : state :=
  State (mut s) (sentinel s) (once s) (array s) (bottom s) v (errno s).
Definition set_errno (v : Z) (s : state) : state :=
  State (mut s) (sentinel s) (once s) (array s) (bottom s) (inited s) v.

(** ** What the C library and the target thread answer during one call *)
Inductive realloc_answer : Type :=
  | ReallocNull                               (* NULL, errno = ENOMEM *)
  | ReallocOk (fresh : list pthread_t).       (* the words that follow the
                                                 copied contents: the new
                                                 slots, indeterminate, then
                                                 the new slack *)

Record env : Type := Env {
  calloc_answer : option (list pthread_t);   (* [None]: calloc returns NULL;
                                                [Some m]: the zeroed block is
                                                followed by the words [m] *)
  sigaction_status : signal -> Z;
  realloc_reply : realloc_answer;
  kill_status : Z;                           (* what pthread_kill returns *)
  handler_runs : bool                        (* the target reaches
                                                suspend_signal_handler *)
}.

(** ** Traces *)
Inductive event : Type :=
  | EvRead (i : Z)                        (* array[i] read *)
  | EvWrite (i : Z) (v : pthread_t)       (* array[i] = v *)
  | EvCalloc (n : Z)
  | EvRealloc (n : Z)                     (* realloc (array, n * sizeof) *)
  | EvSigaction (sig : signal)
  | EvKill (t : pthread_t) (sig : signal).

(** ** The monad *)
Inductive stop : Type :=
  | Crash      (* access to a word that is not mapped *)
  | Hang       (* the call never returns *)
  | Abort.     (* errno_abort *)

Inductive outcome (A : Type) : Type :=
  | Done (a : A)
  | Stop (w : stop).
Arguments Done {A} a.
Arguments Stop {A} w.

Definition M (A : Type) : Type := state -> outcome A * state * list event.

Definition ret {A} (a : A) : M A := fun s => (Done a, s, []).

Definition bind {A B} (m : M A) (f : A -> M B) : M B := fun s =>
  match m s with
  | (Done a, s1, t1) => let '(r, s2, t2) := f a s1 in (r, s2, t1 ++ t2)
  | (Stop w, s1, t1) => (Stop w, s1, t1)
  end.

#[export] Instance M_ret : MRet M := @ret.
#[export] Instance M_bind : MBind M := fun A B f m => bind m f.

Definition gets {A} (f : state -> A) : M A := fun s => (Done (f s), s, []).
Definition modify (f : state -> state) : M unit := fun s => (Done tt, f s, []).
Definition emit (ev : event) : M unit := fun s => (Done tt, s, [ev]).
Definition halt {A} (w : stop) : M A := fun s => (Stop w, s, []).

(** [array[i]] *)
Definition load (i : Z) : M pthread_t := fun s =>
  match array s with
  | Some b =>
      match peek b i with
      | Some v => (Done v, s, [EvRead i])
      | None => (Stop Crash, s, [EvRead i])
      end
  | None => (Stop Crash, s, [EvRead i])
  end.

(** [array[i] = v] *)
Definition store (i : Z) (v : pthread_t) : M unit := fun s =>
  match array s with
  | Some b =>
      match poke b i v with
      | Some b' => (Done tt, set_array (Some b') s, [EvWrite i v])
      | None => (Stop Crash, s, [EvWrite i v])
      end
  | None => (Stop Crash, s, [EvWrite i v])
  end.

(** ** Library calls *)

(** A default mutex: locking a free mutex succeeds; locking a held one
    blocks, which in a single sequence of calls never ends. *)
Definition pthread_mutex_lock : M Z := fun s =>
  if mut s then (Stop Hang, s, []) else (Done 0, set_mut true s, []).

Definition pthread_mutex_unlock : M Z := fun s => (Done 0, set_mut false s, []).

Definition pthread_once (init_routine : M unit) : M Z :=
  done ← gets once;
  if done : bool then mret 0
  else init_routine;; modify (set_once true);; mret 0.

Definition calloc (e : env) (n : Z) : M (option block) :=
  emit (EvCalloc n);;
  match calloc_answer e with
  | Some m => mret (Some (Block (replicate (Z.to_nat n) 0) m))
  | None => modify (set_errno ENOMEM);; mret None
  end.

(** [realloc (p, n * sizeof (pthread_t))]: on success the old contents are
    kept up to the smaller of the two sizes and [fresh] follows them. *)
Definition resize (old : list pthread_t) (fresh : list pthread_t) (n : nat) : block :=
  Block (take n (old ++ fresh)) (drop n (old ++ fresh)).

Definition realloc (e : env) (p : option block) (n : Z) : M (option block) :=
  emit (EvRealloc n);;
  match realloc_reply e with
  | ReallocNull => modify (set_errno ENOMEM);; mret None
  | ReallocOk fresh =>
      mret (Some (resize (from_option slots [] p) fresh (Z.to_nat n)))
  end.

Definition sigaction (e : env) (sig : signal) : M Z :=
  emit (EvSigaction sig);;
  if decide (sigaction_status e sig = -1)
  then modify (set_errno EINVAL);; mret (-1)
  else mret (sigaction_status e sig).

(** Modelled from the spec: [errno_abort] is a macro of errors.h, which is
    not among the sources; a handler that cannot be installed is fatal, so
    the macro ends the process. *)
Definition errno_abort {A} : M A := halt Abort.

Definition pthread_kill (e : env) (t : pthread_t) (sig : signal) : M Z :=
  emit (EvKill t sig);; mret (kill_status e).

(** ** susp.c *)

(** [suspend_signal_handler], as the caller of [thd_suspend] sees it: the
    target sets [sentinel = 1] and blocks in [sigsuspend]. *)
Definition suspend_signal_handler : M unit := modify (set_sentinel 1).

(** [resume_signal_handler] does nothing: it only makes [sigsuspend]
    return in the target. *)
Definition resume_signal_handler : M unit := mret tt.

(** [suspend_init_routine] *)
Definition suspend_init_routine (e : env) : M unit :=
  modify (set_bottom 10);;
  n ← gets bottom;
  p ← calloc e n;
  modify (set_array p);;
  status ← sigaction e SIGUSR1;
  if decide (status = -1) then errno_abort
  else
    status ← sigaction e SIGUSR2;
    if decide (status = -1) then errno_abort
    else modify (set_inited 1).

(** [while (i < bottom) if (array[i++] == target_thread) ...]: [n] is the
    number of iterations left, [bottom - i]; the result tells whether the
    loop left through the [return]. *)
Fixpoint scan_suspended (target_thread : pthread_t) (n : nat) (i : Z) : M bool :=
  match n with
  | O => mret false
  | S n' =>
      x ← load i;
      if decide (x = target_thread) then mret true
      else scan_suspended target_thread n' (int_succ i)
  end.

(** [while (array[i] != 0) i++;]: nothing bounds the loop but the end of
    the mapped words, whose number is the fuel. *)
Fixpoint find_empty (fuel : nat) (i : Z) : M Z :=
  x ← load i;
  if decide (x ≠ 0) then
    match fuel with
    | O => halt Hang
    | S fuel' => find_empty fuel' (int_succ i)
    end
  else mret i.

Definition mapped (s : state) : nat :=
  match array s with
  | Some b => length (cells b)
  | None => O
  end.

(** [while (sentinel == 0) sched_yield ();] *)
Definition wait_for_sentinel (e : env) : M unit :=
  v ← gets sentinel;
  if decide (v = 0) then
    if handler_runs e then suspend_signal_handler else halt Hang
  else mret tt.

(** Lines 181-197 of [thd_suspend]: signal the target, wait, record it. *)
Definition suspend_target (e : env) (target_thread : pthread_t) (i : Z) : M Z :=
  modify (set_sentinel 0);;
  status ← pthread_kill e target_thread SIGUSR1;
  if decide (status ≠ 0) then
    pthread_mutex_unlock;; mret status
  else
    wait_for_sentinel e;;
    store i target_thread;;
    status ← pthread_mutex_unlock;
    mret status.

(** Lines 146-197 of [thd_suspend], which run with [mut] held. *)
Definition suspend_locked (e : env) (target_thread : pthread_t) : M Z :=
  n ← gets bottom;
  found ← scan_suspended target_thread (Z.to_nat n) 0;
  if found : bool then
    status ← pthread_mutex_unlock;
    mret status
  else
    fuel ← gets mapped;
    i ← find_empty fuel 0;
    b ← gets bottom;
    if decide (i = b) then
      modify (fun s => set_bottom (int_succ (bottom s)) s);;
      b' ← gets bottom;
      old ← gets array;
      p ← realloc e old b';
      modify (set_array p);;
      match p with
      | None =>
          pthread_mutex_unlock;;
          gets errno
      | Some _ =>
          store b' null_pthread;;
          suspend_target e target_thread i
      end
    else suspend_target e target_thread i.

Definition thd_suspend (e : env) (target_thread : pthread_t) : M Z :=
  status ← pthread_once (suspend_init_routine e);
  if decide (status ≠ 0) then mret status
  else
    status ← pthread_mutex_lock;
    if decide (status ≠ 0) then mret status
    else suspend_locked e target_thread.

(** [while (array[i] != target_thread && i < bottom) i++;]: the word is
    read before the bound is tested; [n] is [bottom - i]. *)
Fixpoint find_suspended (target_thread : pthread_t) (n : nat) (i : Z) : M Z :=
  x ← load i;
  if decide (x ≠ target_thread) then
    match n with
    | O => mret i
    | S n' => find_suspended target_thread n' (int_succ i)
    end
  else mret i.

(** Lines 218-252 of [thd_continue], which run with [mut] held. *)
Definition continue_locked (e : env) (target_thread : pthread_t) : M Z :=
  ini ← gets inited;
  if decide (ini = 0) then
    status ← pthread_mutex_unlock;
    mret status
  else
    n ← gets bottom;
    i ← find_suspended target_thread (Z.to_nat n) 0;
    b ← gets bottom;
    if decide (i >= b) then
      pthread_mutex_unlock;; mret 0
    else
      status ← pthread_kill e target_thread SIGUSR2;
      if decide (status ≠ 0) then
        pthread_mutex_unlock;; mret status
      else
        store i 0;;
        status ← pthread_mutex_unlock;
        mret status.

Definition thd_continue (e : env) (target_thread : pthread_t) : M Z :=
  status ← pthread_mutex_lock;
  if decide (status ≠ 0) then mret status
  else continue_locked e target_thread.

(** ** Sequences of calls *)
Inductive call : Type :=
  | Suspend (e : env) (t : pthread_t)
  | Continue (e : env) (t : pthread_t).

Definition perform (c : call) : M Z :=
  match c with
  | Suspend e t => thd_suspend e t
  | Continue e t => thd_continue e t
  end.

(** The calls of [cs] one after the other, with the statuses they return. *)
Fixpoint run (cs : list call) : M (list Z) :=
  match cs with
  | [] => mret []
  | c :: cs' =>
      status ← perform c;
      rest ← run cs';
      mret (status :: rest)
  end.

Definition reachable (s : state) : Prop :=
  ∃ cs r tr, run cs initial_state = (r, s, tr).

(** ** Vocabulary of the statements *)

(** [after t x]: the result [x] of the rest of a call, behind the events [t]. *)
Definition after {A} (t : list event) (x : outcome A * state * list event)
  : outcome A * state * list event :=
  let '(r, s, t') := x in (r, s, t ++ t').

(** The reads of [array[i]], ..., [array[i + n - 1]], in this order. *)
Definition reads (i n : Z) : list event := EvRead <$> seqZ i n.

Definition is_read (ev : event) : Prop := ∃ i, ev = EvRead i.

Definition writes (tr : list event) : list (Z * pthread_t) :=
  omap (λ ev, match ev with EvWrite i v => Some (i, v) | _ => None end) tr.

Definition signals (tr : list event) : list (pthread_t * signal) :=
  omap (λ ev, match ev with EvKill t sig => Some (t, sig) | _ => None end) tr.

Definition reallocs (tr : list event) : list Z :=
  omap (λ ev, match ev with EvRealloc n => Some n | _ => None end) tr.

Definition reads_of (tr : list event) : list Z :=
  omap (λ ev, match ev with EvRead i => Some i | _ => None end) tr.

(** The word at index [i] is mapped and holds something else than [x]. *)
Definition differs (b : block) (x : pthread_t) (i : Z) : Prop :=
  ∃ y, peek b i = Some y ∧ y ≠ x.

(** A state between two calls, once the package is initialised: the mutex
    is free, [array] points to a block of [bottom] slots, and the mapped
    words can be indexed by an [int]. *)
Definition ready (s : state) (b : block) : Prop :=
  mut s = false ∧ once s = true ∧ inited s ≠ 0 ∧ array s = Some b ∧
  bottom s = Z.of_nat (length (slots b)) ∧
  Z.of_nat (length (cells b)) < INT_MAX.

(** Every slot of the registry is occupied. *)
Definition full (b : block) : Prop := Forall (λ x, x ≠ 0) (slots b).

(** No thread identifier occupies two slots. *)
Definition registry_unique (s : state) : Prop :=
  ∀ b i j x, array s = Some b →
    slots b !! i = Some x → slots b !! j = Some x → x ≠ 0 → i = j.

(** C4 as it is stated: for a thread in no slot of the registry,
    [thd_continue] returns 0, sends no signal and leaves the registry as
    it was. *)
Definition continue_absent_is_noop (e : env) (t : pthread_t) (s : state) : Prop :=
  ∀ b, array s = Some b → t ∉ slots b →
    ∃ s' tr, thd_continue e t s = (Done 0, s', tr) ∧ signals tr = [] ∧
      array s' = array s ∧ bottom s' = bottom s.



(** ** Concrete answers and states *)
Definition ESRCH : Z := 3.

(** Every library call succeeds; two zero words follow each block. *)
Definition env_ok : env :=
  Env (Some [0; 0]) (λ _, 0) (ReallocOk [0; 0]) 0 true.

(** The target thread no longer exists. *)
Definition env_gone : env :=
  Env (Some [0; 0]) (λ _, 0) (ReallocOk [0; 0]) ESRCH true.

(** The target is gone and [realloc] moves the block to a place whose
    first new word holds [1]. *)
Definition env_gone_moved : env :=
  Env (Some [0; 0]) (λ _, 0) (ReallocOk [1; 0; 0]) ESRCH true.

(** [realloc] fails. *)
Definition env_nomem : env :=
  Env (Some [0; 0]) (λ _, 0) ReallocNull 0 true.

(** The word that follows the block allocated by [calloc] is not zero. *)
Definition env_tight : env :=
  Env (Some [7; 0; 0]) (λ _, 0) (ReallocOk [0; 0]) 0 true.

(** The block allocated by [calloc] ends the mapped memory. *)
Definition env_edge : env :=
  Env (Some []) (λ _, 0) (ReallocOk [0; 0]) 0 true.

Definition suspend_each (e : env) (ts : list pthread_t) : list call :=
  Suspend e <$> ts.

(** Thread 5 is suspended, nine slots are free. *)
Definition block_one : block := Block [5; 0; 0; 0; 0; 0; 0; 0; 0; 0] [0; 0].
Definition state_one : state := State false 1 true (Some block_one) 10 1 0.

(** Threads 1 to 10 are suspended: no slot is free. *)
Definition block_full : block := Block [1; 2; 3; 4; 5; 6; 7; 8; 9; 10] [0; 0].
Definition state_full : state := State false 1 true (Some block_full) 10 1 0.

(** The same registry when the word behind the block holds 7. *)
Definition block_tight : block := Block [1; 2; 3; 4; 5; 6; 7; 8; 9; 10] [7; 0; 0].
Definition state_tight : state := State false 1 true (Some block_tight) 10 1 0.

(** Thread 5 is suspended and the block ends the mapped memory. *)
Definition block_edge : block := Block [5; 0; 0; 0; 0; 0; 0; 0; 0; 0] [].
Definition state_edge : state := State false 1 true (Some block_edge) 10 1 0.

(** [state_full] after [realloc] has failed in [thd_suspend]. *)
Definition state_lost : state := State false 1 true None 11 1 ENOMEM.

(** [state_full] after a call to [thd_suspend] in which [realloc] moved
    the block and the delivery of the signal failed. *)
Definition block_dup : block := Block [1; 2; 3; 4; 5; 6; 7; 8; 9; 10; 1] [0; 0].
Definition state_dup : state := State false 0 true (Some block_dup) 11 1 0.

(** The globals after the registry [b] has grown by one slot that holds
    [x], with the clearing marker in the word behind it, before [rest]. *)
Definition grown (b : block) (x : pthread_t) (rest : list pthread_t)
    (s : state) : state :=
  set_bottom (bottom s + 1)
    (set_array (Some (Block (slots b ++ [x]) (0 :: rest))) s).

(** The calls to [calloc] and to [sigaction] in a trace. *)
Definition callocs (tr : list event) : list Z :=
  omap (λ ev, match ev with EvCalloc n => Some n | _ => None end) tr.

Definition sigactions (tr : list event) : list signal :=
  omap (λ ev, match ev with EvSigaction sig => Some sig | _ => None end) tr.

(** The indices of [array] that a trace reads or writes. *)
Definition accesses (tr : list event) : list Z :=
  omap (λ ev, match ev with
              | EvRead i => Some i
              | EvWrite i _ => Some i
              | _ => None
              end) tr.

(** ** The test program

    [main] runs in the initial thread.  What the attribute calls and
    [pthread_create] return, the identifiers of the created threads, and
    what each call of the package meets, are given to it as a [main_env].
    The array [threads] is indexed by the loop counters only, so it is a
    function of the index; [stack] is what it holds when [main] starts. *)
Definition THREAD_COUNT : Z := 20.

Record main_env : Type := MainEnv {
  attr_init_status : Z;           (* pthread_attr_init *)
  setdetachstate_status : Z;      (* pthread_attr_setdetachstate *)
  create_status : Z -> Z;         (* the i-th pthread_create *)
  created : Z -> pthread_t;       (* the identifier it stores *)
  stack : Z -> pthread_t;
  suspend_env : Z -> env;         (* for thd_suspend (threads[i]) *)
  continue_env : Z -> env         (* for thd_continue (threads[i]) *)
}.

(** A formatted line, with the format as the source writes it: a call
    [printf (format, args)] of [main], or [sprintf (buffer, format, args)]
    followed by [write (1, buffer, strlen (buffer))] in a worker. *)
Inductive output : Type :=
  | Printf (format : string) (args : list Z).

Record process : Type := Process {
  globals : state;
  printed : list output;          (* the calls to printf, in order *)
  failure : option (Z * string)   (* the arguments of err_abort *)
}.

Definition initial_process : process := Process initial_state [] None.

Definition P (A : Type) : Type :=
  process -> outcome A * process * list event.

Definition retP {A} (a : A) : P A := fun p => (Done a, p, []).

Definition bindP {A B} (m : P A) (f : A -> P B) : P B := fun p =>
  match m p with
  | (Done a, p1, t1) => let '(r, p2, t2) := f a p1 in (r, p2, t1 ++ t2)
  | (Stop w, p1, t1) => (Stop w, p1, t1)
  end.

#[export] Instance P_ret : MRet P := @retP.
#[export] Instance P_bind : MBind P := fun A B f m => bindP m f.

(** A call of the package from [main]: it works on the globals. *)
Definition in_globals {A} (m : M A) : P A := fun p =>
  let '(r, s, tr) := m (globals p) in
  (r, Process s (printed p) (failure p), tr).

Definition printf (format : string) (args : list Z) : P unit := fun p =>
  (Done tt, Process (globals p) (printed p ++ [Printf format args]) (failure p),
   []).

(** [sleep] lets the other threads run; what they do to the calls of the
    package is in the [env] of each call. *)
Definition sleep (seconds : Z) : P unit := mret tt.

(** Modelled from its use: [err_abort] is a macro of errors.h, which is
    not among the sources; it reports [status] with [text] and ends the
    process. *)
Definition err_abort {A} (status : Z) (text : string) : P A := fun p =>
  (Stop Abort, Process (globals p) (printed p) (Some (status, text)), []).

Definition pthread_attr_init (me : main_env) : P Z :=
  mret (attr_init_status me).

Definition pthread_attr_setdetachstate (me : main_env) : P Z :=
  mret (setdetachstate_status me).

(** [pthread_create (&threads[i], ...)]: the identifier is stored when the
    call succeeds. *)
Definition pthread_create (me : main_env) (i : Z) (threads : Z -> pthread_t)
    : P (Z * (Z -> pthread_t)) :=
  mret (if decide (create_status me i = 0)
        then (0, <[i := created me i]> threads)
        else (create_status me i, threads)).

(** [pthread_exit (NULL)] ends the initial thread. *)
Definition pthread_exit : P unit := mret tt.

(** [for (...; i < ...; i++)] over [pthread_create]: [n] is the number of
    iterations left. *)
Fixpoint create_threads (me : main_env) (n : nat) (i : Z)
    (threads : Z -> pthread_t) : P (Z -> pthread_t) :=
  match n with
  | O => mret threads
  | S n' =>
      r ← pthread_create me i threads;
      if decide (r.1 ≠ 0) then err_abort r.1 "Create thread"
      else create_threads me n' (int_succ i) r.2
  end.

(** The loops over [thd_suspend]. *)
Fixpoint suspend_threads (me : main_env) (threads : Z -> pthread_t)
    (n : nat) (i : Z) : P unit :=
  match n with
  | O => mret tt
  | S n' =>
      printf "Suspending thread %d.\n" [i];;
      status ← in_globals (thd_suspend (suspend_env me i) (threads i));
      if decide (status ≠ 0) then err_abort status "Suspend thread"
      else suspend_threads me threads n' (int_succ i)
  end.

(** The loops over [thd_continue]; the first one reports a failure with
    the text of the suspend loops, the second one with [text] of its own. *)
Fixpoint continue_threads (me : main_env) (threads : Z -> pthread_t)
    (text : string) (n : nat) (i : Z) : P unit :=
  match n with
  | O => mret tt
  | S n' =>
      printf "Continuing thread %d.\n" [i];;
      status ← in_globals (thd_continue (continue_env me i) (threads i));
      if decide (status ≠ 0) then err_abort status text
      else continue_threads me threads text n' (int_succ i)
  end.

Definition main (me : main_env) : P unit :=
  status ← pthread_attr_init me;
  if decide (status ≠ 0) then err_abort status "Init attributes object"
  else
    status ← pthread_attr_setdetachstate me;
    if decide (status ≠ 0) then err_abort status "Set create-detached"
    else
      threads ← create_threads me (Z.to_nat THREAD_COUNT) 0 (stack me);
      sleep 2;;
      suspend_threads me threads (Z.to_nat (THREAD_COUNT / 2)) 0;;
      printf "Sleeping ...\n" [];;
      sleep 2;;
      continue_threads me threads "Suspend thread"
        (Z.to_nat (THREAD_COUNT / 2)) 0;;
      suspend_threads me threads
        (Z.to_nat (THREAD_COUNT - THREAD_COUNT / 2)) (THREAD_COUNT / 2);;
      printf "Sleeping ...\n" [];;
      sleep 2;;
      continue_threads me threads "Continue thread"
        (Z.to_nat (THREAD_COUNT - THREAD_COUNT / 2)) (THREAD_COUNT / 2);;
      pthread_exit.

(** ** The worker threads *)
Definition ITERATIONS : Z := 40000.

(** The loop of [thread_routine], [for (i = 1; i <= iterations; i++)]:
    [n] is the number of iterations left, [iterations - i + 1].  The
    result is the list of the lines written; [sched_yield] has no effect
    on it. *)
Fixpoint thread_loop (number : Z) (n : nat) (i : Z) : list output :=
  match n with
  | O => []
  | S n' =>
      (if decide (Z.rem i 2000 = 0)
       then [Printf "Thread %02d: %d\n" [number; i]]
       else [])
        ++ thread_loop number n' (int_succ i)
  end.

(** [(int)arg]: the low 32 bits of the argument, read as a
    two's-complement integer. *)
Definition to_int (x : Z) : Z := (x - INT_MIN) mod 2 ^ 32 + INT_MIN.

(** [thread_routine (arg)], with [int number = (int)arg]. *)
Definition thread_routine (iterations : Z) (arg : Z) : list output :=
  thread_loop (to_int arg) (Z.to_nat iterations) 1.

(** The events of a call that suspends [T] into slot [k] of a registry of
    ten slots, and of a call that resumes it from there. *)
Definition suspend_trace (k : Z) (T : pthread_t) : list event :=
  reads 0 10 ++ reads 0 (k + 1) ++ [EvKill T SIGUSR1; EvWrite k T].

Definition continue_trace (k : Z) (T : pthread_t) : list event :=
  reads 0 (k + 1) ++ [EvKill T SIGUSR2; EvWrite k 0].

(** What [main] prints for the threads [base], ..., [base + 9]. *)
Definition suspending (base : Z) : list output :=
  (λ i, Printf "Suspending thread %d.\n" [i]) <$> seqZ base 10.

Definition continuing (base : Z) : list output :=
  (λ i, Printf "Continuing thread %d.\n" [i]) <$> seqZ base 10.

(** The globals between two calls of [main], once the package is
    initialised and a first thread has been stopped. *)
Definition between (b : block) : state := State false 1 true (Some b) 10 1 0.

(** The registry while [main] suspends the threads [base], [base + 1],
    ...: the first [j] of them are recorded, in this order. *)
Definition filling (threads : Z -> pthread_t) (base : Z) (j : nat)
    (m : list pthread_t) : block :=
  Block ((threads <$> seqZ base (Z.of_nat j)) ++ replicate (10 - j) 0) m.

(** The registry while [main] resumes them: the first [j] slots are
    empty again. *)
Definition emptying (threads : Z -> pthread_t) (base : Z) (j : nat)
    (m : list pthread_t) : block :=
  Block (replicate j 0
           ++ (threads <$> seqZ (base + Z.of_nat j) (Z.of_nat (10 - j)))) m.

(** Everything [main] prints when no call fails. *)
Definition main_output : list output :=
  suspending 0 ++ [Printf "Sleeping ...\n" []] ++ continuing 0
    ++ suspending 10 ++ [Printf "Sleeping ...\n" []] ++ continuing 10.

(** The events of [main] when no call fails and the threads have the
    identifiers [c 0], ..., [c 19]. *)
Definition suspend_phase (c : Z -> pthread_t) (base : Z) : list event :=
  mjoin ((λ k, suspend_trace k (c (base + k))) <$> seqZ 0 10).

Definition continue_phase (c : Z -> pthread_t) (base : Z) : list event :=
  mjoin ((λ k, continue_trace k (c (base + k))) <$> seqZ 0 10).

Definition main_trace (c : Z -> pthread_t) : list event :=
  [EvCalloc 10; EvSigaction SIGUSR1; EvSigaction SIGUSR2]
    ++ suspend_phase c 0 ++ continue_phase c 0
    ++ suspend_phase c 10 ++ continue_phase c 10.

(** The signal [sig] to each of the threads [base], ..., [base + 9]. *)
Definition signal_each (c : Z -> pthread_t) (sig : signal) (base : Z)
    : list (pthread_t * signal) :=
  (λ i, (c i, sig)) <$> seqZ base 10.

(** Every library call succeeds and thread [i] has the identifier
    [i + 1]. *)
Definition main_env_ok : main_env :=
  MainEnv 0 0 (λ _, 0) (λ i, i + 1) (λ _, 0) (λ _, env_ok) (λ _, env_ok).

(** Every library call succeeds, but thread 3 has ended when [main]
    tries to suspend it. *)
Definition main_env_gone : main_env :=
  MainEnv 0 0 (λ _, 0) (λ i, i + 1) (λ _, 0)
    (λ i, if decide (i = 3) then env_gone else env_ok) (λ _, env_ok).

(** The fourth [pthread_create] fails with [EAGAIN]. *)
Definition EAGAIN : Z := 11.

Definition main_env_few : main_env :=
  MainEnv 0 0 (λ i, if decide (i = 3) then EAGAIN else 0) (λ i, i + 1)
    (λ _, 0) (λ _, env_ok) (λ _, env_ok).

(** Every library call of [main] succeeds, the twenty threads have
    distinct identifiers, none of which is [0], and each of them is alive
    and reaches its handler when it is signalled. *)
Definition main_env_fine (me : main_env) (m : list pthread_t) : Prop :=
  attr_init_status me = 0 ∧ setdetachstate_status me = 0 ∧
  calloc_answer (suspend_env me 0) = Some m ∧
  sigaction_status (suspend_env me 0) SIGUSR1 ≠ -1 ∧
  sigaction_status (suspend_env me 0) SIGUSR2 ≠ -1 ∧
  Z.of_nat (10 + length m) < INT_MAX ∧
  ∀ i, 0 ≤ i < THREAD_COUNT →
    create_status me i = 0 ∧ created me i ≠ 0 ∧
    kill_status (suspend_env me i) = 0 ∧
    handler_runs (suspend_env me i) = true ∧
    kill_status (continue_env me i) = 0 ∧
    ∀ j, 0 ≤ j < THREAD_COUNT → created me i = created me j → i = j.

(** * Properties *)

(** ** Integers, memory and traces *)

Lemma int_succ_lt x : x < INT_MAX → int_succ x = x + 1.
Proof. intros H. unfold int_succ. case_decide; [lia | reflexivity]. Qed.

Lemma int_succ_max : int_succ INT_MAX < 0.
Proof. reflexivity. Qed.

Lemma peek_neg b i : i < 0 → peek b i = None.
Proof. intros H. unfold peek. case_decide; [lia | reflexivity]. Qed.

Lemma peek_nat b (j : nat) : peek b (Z.of_nat j) = cells b !! j.
Proof. unfold peek. case_decide; [|lia]. by rewrite Nat2Z.id. Qed.

Lemma peek_slots b (j : nat) :
  (j < length (slots b))%nat → peek b (Z.of_nat j) = slots b !! j.
Proof. intros H. rewrite peek_nat. unfold cells. by rewrite lookup_app_l. Qed.

Lemma peek_slack b (j : nat) :
  peek b (Z.of_nat (length (slots b) + j)) = slack b !! j.
Proof.
  rewrite peek_nat. unfold cells.
  rewrite lookup_app_r by lia. f_equal. lia.
Qed.

Lemma peek_mapped b i v :
  peek b i = Some v → 0 ≤ i < Z.of_nat (length (cells b)).
Proof.
  unfold peek. case_decide; [|discriminate].
  intros Hlt%lookup_lt_Some. lia.
Qed.

Lemma length_cells b : length (cells b) = (length (slots b) + length (slack b))%nat.
Proof. unfold cells. apply length_app. Qed.

(** A store to a mapped word succeeds, changes that word only, and moves
    no word between the block and what follows it. *)
Lemma poke_mapped b i x v : peek b i = Some x → ∃ b', poke b i v = Some b'.
Proof.
  intros Hp. pose proof (peek_mapped _ _ _ Hp) as Hi.
  rewrite length_cells in Hi. unfold poke.
  case_decide; [|lia]. cbn zeta. repeat case_decide; eauto. exfalso; lia.
Qed.

Lemma poke_slot b (k : nat) v :
  (k < length (slots b))%nat →
  poke b (Z.of_nat k) v = Some (Block (<[k := v]> (slots b)) (slack b)).
Proof.
  intros Hk. unfold poke. rewrite decide_True by lia. cbn zeta.
  by rewrite Nat2Z.id, decide_True.
Qed.

Lemma poke_slack b (k : nat) v :
  (k < length (slack b))%nat →
  poke b (Z.of_nat (length (slots b) + k)) v
  = Some (Block (slots b) (<[k := v]> (slack b))).
Proof.
  intros Hk. unfold poke. rewrite decide_True by lia. cbn zeta.
  rewrite Nat2Z.id, decide_False, decide_True by lia.
  do 3 f_equal. lia.
Qed.

Lemma poke_length b i v b' :
  poke b i v = Some b' →
  length (slots b') = length (slots b) ∧ length (slack b') = length (slack b).
Proof.
  unfold poke. case_decide; [|discriminate]. cbn zeta.
  repeat case_decide; intros [= <-]; cbn; by rewrite ?length_insert.
Qed.

Lemma poke_peek b i v b' j :
  poke b i v = Some b' →
  peek b' j = if decide (j = i) then Some v else peek b j.
Proof.
  unfold poke. case_decide as Hi; [|discriminate]. cbn zeta.
  destruct (decide (j < 0)) as [Hj|Hj].
  { rewrite !peek_neg by lia. intros _. destruct (decide (j = i)); [lia|done]. }
  assert (∃ n : nat, j = Z.of_nat n) as [n ->] by (exists (Z.to_nat j); lia).
  assert (∃ m : nat, i = Z.of_nat m) as [m ->] by (exists (Z.to_nat i); lia).
  rewrite !peek_nat, Nat2Z.id. unfold cells.
  destruct (decide (m < length (slots b))%nat) as [Hm|Hm].
  - intros [= <-]. cbn. destruct (decide (n = m)) as [->|Hne].
    + rewrite decide_True by done.
      rewrite lookup_app_l by (rewrite length_insert; lia).
      by rewrite list_lookup_insert_eq.
    + rewrite decide_False by lia.
      destruct (decide (n < length (slots b))%nat).
      * rewrite !lookup_app_l by (rewrite ?length_insert; lia).
        by rewrite list_lookup_insert_ne.
      * rewrite !lookup_app_r by (rewrite ?length_insert; lia).
        by rewrite length_insert.
  - case_decide as Hs; [|discriminate]. intros [= <-]. cbn.
    destruct (decide (n = m)) as [->|Hne].
    + rewrite decide_True by done. rewrite lookup_app_r by lia.
      by rewrite list_lookup_insert_eq.
    + rewrite decide_False by lia.
      destruct (decide (n < length (slots b))%nat).
      * by rewrite !lookup_app_l.
      * rewrite !lookup_app_r by lia. by rewrite list_lookup_insert_ne by lia.
Qed.

Lemma reads_cons i n : 0 ≤ n → reads i (n + 1) = EvRead i :: reads (i + 1) n.
Proof.
  intros H. unfold reads. rewrite seqZ_cons by lia. cbn.
  do 3 f_equal; lia.
Qed.

Lemma reads_S i (n : nat) :
  reads i (Z.of_nat (S n)) = EvRead i :: reads (i + 1) (Z.of_nat n).
Proof. rewrite Nat2Z.inj_succ, <- Z.add_1_r. apply reads_cons. lia. Qed.

Lemma elem_of_reads ev i n :
  ev ∈ reads i n ↔ ∃ k, ev = EvRead k ∧ i ≤ k < i + n.
Proof.
  unfold reads. rewrite list_elem_of_fmap.
  setoid_rewrite elem_of_seqZ. reflexivity.
Qed.

Lemma writes_reads i n : writes (reads i n) = [].
Proof. unfold writes, reads. by induction (seqZ i n). Qed.

Lemma signals_reads i n : signals (reads i n) = [].
Proof. unfold signals, reads. by induction (seqZ i n). Qed.

Lemma reallocs_reads i n : reallocs (reads i n) = [].
Proof. unfold reallocs, reads. by induction (seqZ i n). Qed.

Lemma writes_app t1 t2 : writes (t1 ++ t2) = writes t1 ++ writes t2.
Proof. apply omap_app. Qed.

Lemma signals_app t1 t2 : signals (t1 ++ t2) = signals t1 ++ signals t2.
Proof. apply omap_app. Qed.

Lemma reallocs_app t1 t2 : reallocs (t1 ++ t2) = reallocs t1 ++ reallocs t2.
Proof. apply omap_app. Qed.

(** ** The monad *)

Lemma after_nil {A} (x : outcome A * state * list event) : after [] x = x.
Proof. by destruct x as [[r s] t]. Qed.

Lemma bind_after {A B} (m : M A) (f : A → M B) s :
  (m ≫= f) s =
  match m s with
  | (Done a, s1, t1) => after t1 (f a s1)
  | (Stop w, s1, t1) => (Stop w, s1, t1)
  end.
Proof. reflexivity. Qed.

Lemma load_run s b i v :
  array s = Some b → peek b i = Some v → load i s = (Done v, s, [EvRead i]).
Proof. intros Ha Hp. unfold load. by rewrite Ha, Hp. Qed.

Lemma load_inv i s r s' tr :
  load i s = (r, s', tr) →
  s' = s ∧ tr = [EvRead i] ∧
  match r with
  | Done v => ∃ b, array s = Some b ∧ peek b i = Some v
  | Stop w => w = Crash
  end.
Proof.
  unfold load. destruct (array s) as [b|]; [destruct (peek b i) eqn:Hp|];
    intros [= <- <- <-]; eauto.
Qed.

Lemma store_run s b i v b' :
  array s = Some b → poke b i v = Some b' →
  store i v s = (Done tt, set_array (Some b') s, [EvWrite i v]).
Proof. intros Ha Hp. unfold store. by rewrite Ha, Hp. Qed.

Lemma load_neg i s : i < 0 → load i s = (Stop Crash, s, [EvRead i]).
Proof.
  intros Hi. unfold load. destruct (array s) as [b|]; [|done].
  by rewrite peek_neg.
Qed.

Ltac mcbn :=
  cbn [after app gets modify emit halt pthread_mutex_unlock mret M_ret ret
       mut sentinel once array bottom inited errno
       set_mut set_sentinel set_once set_array set_bottom
       set_inited set_errno].

Ltac mstep := mcbn; repeat (rewrite bind_after; mcbn).

Lemma reads_one i : reads i 1 = [EvRead i].
Proof. apply (reads_cons i 0). lia. Qed.

Lemma Forall_is_read_reads i n : Forall is_read (reads i n).
Proof.
  apply Forall_forall. intros ev (k & -> & _)%elem_of_reads. by exists k.
Qed.

Lemma Forall_is_read_one i : Forall is_read [EvRead i].
Proof. apply Forall_singleton. by exists i. Qed.

Lemma writes_quiet tr : Forall is_read tr → writes tr = [].
Proof. induction 1 as [|ev tr [i ->] _ IH]; [done|exact IH]. Qed.

Lemma signals_quiet tr : Forall is_read tr → signals tr = [].
Proof. induction 1 as [|ev tr [i ->] _ IH]; [done|exact IH]. Qed.

Lemma reallocs_quiet tr : Forall is_read tr → reallocs tr = [].
Proof. induction 1 as [|ev tr [i ->] _ IH]; [done|exact IH]. Qed.

(** ** The three loops on a known memory *)
Section loops.
Context (T : pthread_t) (s : state) (b : block).
Hypothesis Harray : array s = Some b.

(** The first scan of [thd_suspend] when no word below [i + n] holds the
    target: it reads them all and falls through. *)
Lemma scan_suspended_miss (n : nat) : ∀ i,
  0 ≤ i → i + Z.of_nat n ≤ INT_MAX →
  (∀ j, i ≤ j < i + Z.of_nat n → differs b T j) →
  scan_suspended T n i s = (Done false, s, reads i (Z.of_nat n)).
Proof using Harray.
  induction n as [|n IH]; intros i Hi Hmax Hall; [reflexivity|].
  destruct (Hall i ltac:(lia)) as (x & Hx & Hne).
  cbn [scan_suspended]. rewrite bind_after, (load_run _ _ _ _ Harray Hx).
  case_decide; [contradiction|].
  rewrite int_succ_lt by lia.
  rewrite IH, reads_S; [reflexivity|lia|lia|].
  intros j Hj. apply Hall. lia.
Qed.

(** ... and when the first word holding the target is [k] words on. *)
Lemma scan_suspended_hit (n k : nat) : ∀ i,
  0 ≤ i → i + Z.of_nat n ≤ INT_MAX → (k < n)%nat →
  (∀ j, i ≤ j < i + Z.of_nat k → differs b T j) →
  peek b (i + Z.of_nat k) = Some T →
  scan_suspended T n i s = (Done true, s, reads i (Z.of_nat (S k))).
Proof using Harray.
  revert k. induction n as [|n IH]; intros k i Hi Hmax Hk Hall Hat; [lia|].
  cbn [scan_suspended]. rewrite bind_after.
  destruct k as [|k].
  - rewrite Z.add_0_r in Hat. rewrite (load_run _ _ _ _ Harray Hat).
    case_decide; [by rewrite reads_one|contradiction].
  - destruct (Hall i ltac:(lia)) as (x & Hx & Hne).
    rewrite (load_run _ _ _ _ Harray Hx).
    case_decide; [contradiction|].
    rewrite int_succ_lt by lia.
    rewrite (IH k), (reads_S i (S k)); [reflexivity|lia|lia|lia| |].
    + intros j Hj. apply Hall. lia.
    + rewrite <- Hat. f_equal. lia.
Qed.

(** The scan of [thd_continue] stops at the first word equal to the
    target, which may be the word at index [i + n] ... *)
Lemma find_suspended_hit (n k : nat) : ∀ i,
  0 ≤ i → i + Z.of_nat n ≤ INT_MAX → (k ≤ n)%nat →
  (∀ j, i ≤ j < i + Z.of_nat k → differs b T j) →
  peek b (i + Z.of_nat k) = Some T →
  find_suspended T n i s
  = (Done (i + Z.of_nat k), s, reads i (Z.of_nat (S k))).
Proof using Harray.
  revert k. induction n as [|n IH]; intros k i Hi Hmax Hk Hall Hat.
  - assert (k = O) as -> by lia. rewrite Z.add_0_r in *.
    cbn [find_suspended]. rewrite bind_after, (load_run _ _ _ _ Harray Hat).
    case_decide; [contradiction|by rewrite reads_one].
  - cbn [find_suspended]. rewrite bind_after.
    destruct k as [|k].
    + rewrite Z.add_0_r in *. rewrite (load_run _ _ _ _ Harray Hat).
      case_decide; [contradiction|by rewrite reads_one].
    + destruct (Hall i ltac:(lia)) as (x & Hx & Hne).
      rewrite (load_run _ _ _ _ Harray Hx).
      case_decide; [|contradiction].
      rewrite int_succ_lt by lia.
      rewrite (IH k), (reads_S i (S k)); [cbn; do 3 f_equal; lia|lia|lia|lia| |].
      * intros j Hj. apply Hall. lia.
      * rewrite <- Hat. f_equal. lia.
Qed.

(** ... and otherwise at index [i + n], after reading that word too. *)
Lemma find_suspended_miss (n : nat) : ∀ i,
  0 ≤ i → i + Z.of_nat n ≤ INT_MAX →
  (∀ j, i ≤ j ≤ i + Z.of_nat n → differs b T j) →
  find_suspended T n i s
  = (Done (i + Z.of_nat n), s, reads i (Z.of_nat (S n))).
Proof using Harray.
  induction n as [|n IH]; intros i Hi Hmax Hall;
    destruct (Hall i ltac:(lia)) as (x & Hx & Hne);
    cbn [find_suspended]; rewrite bind_after, (load_run _ _ _ _ Harray Hx);
    (case_decide; [|contradiction]).
  - by rewrite Z.add_0_r, reads_one.
  - rewrite int_succ_lt by lia.
    rewrite IH, (reads_S i (S n)); [cbn; do 3 f_equal; lia|lia|lia|].
    intros j Hj. apply Hall. lia.
Qed.

(** The search for an empty slot returns the index of the first zero
    word, wherever it is, when the fuel reaches that far. *)
Lemma find_empty_hit (fuel k : nat) : ∀ i,
  0 ≤ i → i + Z.of_nat k ≤ INT_MAX → (k ≤ fuel)%nat →
  (∀ j, i ≤ j < i + Z.of_nat k → differs b 0 j) →
  peek b (i + Z.of_nat k) = Some 0 →
  find_empty fuel i s
  = (Done (i + Z.of_nat k), s, reads i (Z.of_nat (S k))).
Proof using Harray.
  revert k. induction fuel as [|n IH]; intros k i Hi Hmax Hk Hall Hat.
  - assert (k = O) as -> by lia. rewrite Z.add_0_r in *.
    cbn [find_empty]. rewrite bind_after, (load_run _ _ _ _ Harray Hat).
    case_decide; [contradiction|by rewrite reads_one].
  - cbn [find_empty]. rewrite bind_after.
    destruct k as [|k].
    + rewrite Z.add_0_r in *. rewrite (load_run _ _ _ _ Harray Hat).
      case_decide; [contradiction|by rewrite reads_one].
    + destruct (Hall i ltac:(lia)) as (x & Hx & Hne).
      rewrite (load_run _ _ _ _ Harray Hx).
      case_decide; [|contradiction].
      rewrite int_succ_lt by lia.
      rewrite (IH k), (reads_S i (S k)); [cbn; do 3 f_equal; lia|lia|lia|lia| |].
      * intros j Hj. apply Hall. lia.
      * rewrite <- Hat. f_equal. lia.
Qed.
End loops.

(** ** The loops on any memory *)

Lemma find_suspended_neg T n i s :
  i < 0 → find_suspended T n i s = (Stop Crash, s, [EvRead i]).
Proof.
  intros Hi. destruct n; cbn [find_suspended]; by rewrite bind_after, load_neg.
Qed.

Lemma find_empty_neg fuel i s :
  i < 0 → find_empty fuel i s = (Stop Crash, s, [EvRead i]).
Proof.
  intros Hi. destruct fuel; cbn [find_empty]; by rewrite bind_after, load_neg.
Qed.

(** Whatever the memory, the scan of [thd_continue] only reads; when it
    ends, it ends on the first word equal to the target or [n] words on. *)
Lemma find_suspended_inv T (n : nat) : ∀ i s r s' tr,
  0 ≤ i → find_suspended T n i s = (r, s', tr) →
  s' = s ∧ Forall is_read tr ∧
  match r with
  | Done j =>
      ∃ b, array s = Some b ∧ i ≤ j ≤ i + Z.of_nat n ∧
        (∀ k, i ≤ k < j → differs b T k) ∧
        (peek b j = Some T ∨ j = i + Z.of_nat n ∧ differs b T j) ∧
        tr = reads i (j - i + 1)
  | Stop w => w = Crash
  end.
Proof.
  induction n as [|n IH]; intros i s r s' tr Hi; cbn [find_suspended];
    rewrite bind_after; destruct (load i s) as [[[x|w] s1] t1] eqn:Hl;
    apply load_inv in Hl as (-> & -> & Hl).
  - destruct Hl as (b & Hb & Hx).
    case_decide as Hne; intros [= <- <- <-]; (split; [done|]);
      (split; [apply Forall_is_read_one|]);
      exists b; rewrite Z.sub_diag, reads_one;
      (repeat split; [done|lia|lia|intros; lia| ]).
    + right. split; [lia|]. by exists x.
    + left. by subst.
  - intros [= <- <- <-]. split; [done|]. split; [|done]. apply Forall_is_read_one.
  - destruct Hl as (b & Hb & Hx). case_decide as Hne.
    + destruct (decide (i = INT_MAX)) as [->|Hmax].
      { rewrite find_suspended_neg by apply int_succ_max.
        intros [= <- <- <-]. split; [done|]. split; [|done].
        apply Forall_cons. split; [by eexists|apply Forall_is_read_one]. }
      assert (int_succ i = i + 1) as ->
        by (unfold int_succ; by rewrite decide_False).
      destruct (find_suspended T n (i + 1) s) as [[r2 s2] t2] eqn:Hrec.
      apply IH in Hrec as (-> & Hq & Hrec); [|lia].
      intros [= <- <- <-]. split; [done|].
      split; [apply Forall_cons; split; [by exists i|done]|].
      destruct r2 as [j|w]; [|done].
      destruct Hrec as (b' & Hb' & Hj & Hbefore & Hat & ->).
      assert (b' = b) as -> by congruence.
      exists b. repeat split; [done|lia|lia| | |].
      * intros k Hk. destruct (decide (k = i)) as [->|]; [by exists x|].
        apply Hbefore. lia.
      * destruct Hat as [?|[-> ?]]; [by left|right]. split; [lia|done].
      * replace (j - i + 1) with ((j - (i + 1) + 1) + 1) by lia.
        by rewrite (reads_cons i) by lia.
    + intros [= <- <- <-]. split; [done|].
      split; [apply Forall_is_read_one|].
      exists b. rewrite Z.sub_diag, reads_one.
      repeat split; [done|lia|lia|intros; lia| ].
      left. by subst.
  - intros [= <- <- <-]. split; [done|]. split; [|done]. apply Forall_is_read_one.
Qed.

(** Whatever the memory, the search for an empty slot only reads; it ends
    on the first zero word or on a fault, unless the fuel is less than the
    number of mapped words ahead. *)
Lemma find_empty_inv (fuel : nat) : ∀ i s r s' tr,
  0 ≤ i → find_empty fuel i s = (r, s', tr) →
  s' = s ∧ Forall is_read tr ∧
  match r with
  | Done j =>
      ∃ b, array s = Some b ∧ i ≤ j ∧
        (∀ k, i ≤ k < j → differs b 0 k) ∧
        peek b j = Some 0 ∧
        tr = reads i (j - i + 1)
  | Stop w => w = Crash ∨ w = Hang ∧ (Z.to_nat i + fuel < mapped s)%nat
  end.
Proof.
  induction fuel as [|n IH]; intros i s r s' tr Hi; cbn [find_empty];
    rewrite bind_after; destruct (load i s) as [[[x|w] s1] t1] eqn:Hl;
    apply load_inv in Hl as (-> & -> & Hl).
  - destruct Hl as (b & Hb & Hx).
    case_decide as Hne; intros [= <- <- <-]; (split; [done|]);
      (split; [apply Forall_is_read_one|]).
    + right. split; [done|]. unfold mapped. rewrite Hb.
      apply peek_mapped in Hx. lia.
    + exists b. rewrite Z.sub_diag, reads_one.
      repeat split; [done|lia|intros; lia|by subst].
  - intros [= <- <- <-]. split; [done|]. split; [apply Forall_is_read_one|].
    left. by subst.
  - destruct Hl as (b & Hb & Hx). case_decide as Hne.
    + destruct (decide (i = INT_MAX)) as [->|Hmax].
      { rewrite find_empty_neg by apply int_succ_max.
        intros [= <- <- <-]. split; [done|]. split; [|by left].
        apply Forall_cons. split; [by eexists|apply Forall_is_read_one]. }
      assert (int_succ i = i + 1) as ->
        by (unfold int_succ; by rewrite decide_False).
      destruct (find_empty n (i + 1) s) as [[r2 s2] t2] eqn:Hrec.
      apply IH in Hrec as (-> & Hq & Hrec); [|lia].
      intros [= <- <- <-]. split; [done|].
      split; [apply Forall_cons; split; [by exists i|done]|].
      destruct r2 as [j|w].
      * destruct Hrec as (b' & Hb' & Hj & Hbefore & Hat & ->).
        assert (b' = b) as -> by congruence.
        exists b. repeat split; [done|lia| |done|].
        -- intros k Hk. destruct (decide (k = i)) as [->|]; [by exists x|].
           apply Hbefore. lia.
        -- replace (j - i + 1) with ((j - (i + 1) + 1) + 1) by lia.
           by rewrite (reads_cons i) by lia.
      * destruct Hrec as [?|[? ?]]; [by left|right]. split; [done|lia].
    + intros [= <- <- <-]. split; [done|].
      split; [apply Forall_is_read_one|].
      exists b. rewrite Z.sub_diag, reads_one.
      repeat split; [done|lia|intros; lia|by subst].
  - intros [= <- <- <-]. split; [done|]. split; [apply Forall_is_read_one|].
    left. by subst.
Qed.

(** With as much fuel as there are mapped words, the search ends by
    itself: on a zero word or on a fault. *)
Lemma find_empty_total s r s' tr :
  find_empty (mapped s) 0 s = (r, s', tr) → r ≠ Stop Hang.
Proof.
  intros H. apply find_empty_inv in H as (_ & _ & H); [|lia].
  destruct r as [j|w]; [done|].
  destruct H as [->|[_ ?]]; [done|lia].
Qed.

(** ** The two operations between calls *)

Lemma unlock_lock s : mut s = false → set_mut false (set_mut true s) = s.
Proof. destruct s; cbn; by intros ->. Qed.

Lemma thd_suspend_locked e T s :
  once s = true → mut s = false →
  thd_suspend e T s = suspend_locked e T (set_mut true s).
Proof.
  intros Honce Hmut. unfold thd_suspend, pthread_once, pthread_mutex_lock.
  mstep. rewrite Honce. mstep. case_decide; [done|].
  mstep. rewrite Hmut. mstep. case_decide; [done|].
  by destruct (suspend_locked e T (set_mut true s)) as [[r s'] tr].
Qed.

Lemma thd_continue_locked e T s :
  mut s = false →
  thd_continue e T s = continue_locked e T (set_mut true s).
Proof.
  intros Hmut. unfold thd_continue, pthread_mutex_lock.
  mstep. rewrite Hmut. mstep. case_decide; [done|].
  by destruct (continue_locked e T (set_mut true s)) as [[r s'] tr].
Qed.

Lemma thd_continue_held e T s :
  mut s = true → thd_continue e T s = (Stop Hang, s, []).
Proof.
  intros Hmut. unfold thd_continue, pthread_mutex_lock.
  by rewrite bind_after, Hmut.
Qed.

(** The signalling part of [thd_suspend], by what the target answers. *)
Lemma suspend_target_gone e T i s :
  kill_status e ≠ 0 →
  suspend_target e T i s
  = (Done (kill_status e), set_mut false (set_sentinel 0 s), [EvKill T SIGUSR1]).
Proof.
  intros Hk. unfold suspend_target, pthread_kill. mstep.
  case_decide; [|done]. mstep. reflexivity.
Qed.

Lemma suspend_target_stopped e T i s b b' :
  kill_status e = 0 → handler_runs e = true →
  array s = Some b → poke b i T = Some b' →
  suspend_target e T i s
  = (Done 0, set_mut false (set_array (Some b') (set_sentinel 1 s)),
     [EvKill T SIGUSR1; EvWrite i T]).
Proof.
  intros Hk Hrun Hb Hpoke.
  unfold suspend_target, pthread_kill, wait_for_sentinel. mstep.
  rewrite Hk. case_decide; [done|]. mstep.
  case_decide; [|done]. rewrite Hrun. unfold suspend_signal_handler. mstep.
  unfold store. cbn [array set_sentinel]. rewrite Hb, Hpoke. mstep.
  reflexivity.
Qed.

(** ** Registered and unregistered threads in a ready state *)

Lemma first_index (x : pthread_t) (l : list pthread_t) :
  x ∈ l →
  ∃ k : nat, l !! k = Some x ∧ ∀ j y, (j < k)%nat → l !! j = Some y → y ≠ x.
Proof.
  induction l as [|a l IH]; [by intros ?%elem_of_nil|].
  destruct (decide (a = x)) as [->|Hne].
  - intros _. exists O. split; [reflexivity|]. intros; lia.
  - intros [?|Hin]%elem_of_cons; [congruence|].
    destruct (IH Hin) as (k & Hk & Hfirst). exists (S k). split; [exact Hk|].
    intros [|j] y Hj; cbn; [congruence|]. apply Hfirst. lia.
Qed.

Lemma differs_slots b x (n : nat) :
  (n ≤ length (slots b))%nat →
  (∀ j y, (j < n)%nat → slots b !! j = Some y → y ≠ x) →
  ∀ j, 0 ≤ j < Z.of_nat n → differs b x j.
Proof.
  intros Hn Hall j Hj.
  assert (∃ m : nat, j = Z.of_nat m) as [m ->] by (exists (Z.to_nat j); lia).
  unfold differs. rewrite peek_slots by lia.
  destruct (lookup_lt_is_Some_2 (slots b) m ltac:(lia)) as [y Hy].
  exists y. split; [done|]. apply (Hall m); [lia|done].
Qed.

Lemma differs_absent b x :
  x ∉ slots b → ∀ j, 0 ≤ j < Z.of_nat (length (slots b)) → differs b x j.
Proof.
  intros Hx. apply differs_slots; [done|].
  intros j y _ Hy ->. apply Hx. by eapply list_elem_of_lookup_2.
Qed.

Lemma differs_full b :
  full b → ∀ j, 0 ≤ j < Z.of_nat (length (slots b)) → differs b 0 j.
Proof.
  intros Hfull. apply differs_slots; [done|].
  intros j y _ Hy. eapply (proj1 (Forall_lookup _ _) Hfull); eassumption.
Qed.

Lemma ready_bounds s b :
  ready s b → 0 ≤ bottom s ≤ Z.of_nat (length (cells b)) ∧ bottom s < INT_MAX.
Proof. intros (_ & _ & _ & _ & -> & Hmax). rewrite length_cells in *. lia. Qed.

(** Writing into a slot keeps the state ready. *)
Lemma ready_insert s b (k : nat) x s' :
  ready s b → mut s' = false → once s' = true → inited s' = inited s →
  bottom s' = bottom s →
  array s' = Some (Block (<[k := x]> (slots b)) (slack b)) →
  ready s' (Block (<[k := x]> (slots b)) (slack b)).
Proof.
  intros (Hmut & Honce & Hinit & Harr & Hbot & Hmax) Hmut' Honce' Hinit' Hbot'
    Harr'.
  rewrite length_cells in Hmax.
  repeat split; [done|done|congruence|done| |].
  - cbn. by rewrite length_insert, Hbot'.
  - rewrite length_cells. cbn. by rewrite length_insert.
Qed.

(** The scan of [thd_continue] over a registry without the target. *)
Lemma find_suspended_absent T s b y :
  array s = Some b → 0 ≤ bottom s < INT_MAX →
  (∀ j, 0 ≤ j < bottom s → differs b T j) →
  peek b (bottom s) = Some y →
  find_suspended T (Z.to_nat (bottom s)) 0 s
  = (Done (bottom s), s, reads 0 (bottom s + 1)).
Proof.
  intros Hb Hbot Hall Hy.
  assert (∃ n : nat, bottom s = Z.of_nat n) as [n Hn]
    by (exists (Z.to_nat (bottom s)); lia).
  rewrite Hn in *. rewrite Nat2Z.id.
  replace (Z.of_nat n + 1) with (Z.of_nat (S n)) by lia.
  destruct (decide (y = T)) as [->|Hne].
  - pose proof (find_suspended_hit T s b Hb n n 0) as H.
    rewrite Z.add_0_l in H. apply H; [lia|lia|lia| |done].
    intros j Hj. apply Hall. lia.
  - pose proof (find_suspended_miss T s b Hb n 0) as H.
    rewrite Z.add_0_l in H. apply H; [lia|lia|].
    intros j Hj. destruct (decide (j = Z.of_nat n)) as [->|]; [by exists y|].
    apply Hall. lia.
Qed.

(** [thd_continue] on a registered thread, by what [pthread_kill] answers. *)
Lemma thd_continue_found e T s b (k : nat) :
  ready s b → slots b !! k = Some T →
  (∀ j y, (j < k)%nat → slots b !! j = Some y → y ≠ T) →
  thd_continue e T s =
  if decide (kill_status e ≠ 0) then
    (Done (kill_status e), s,
     reads 0 (Z.of_nat k + 1) ++ [EvKill T SIGUSR2])
  else
    (Done 0, set_array (Some (Block (<[k := 0]> (slots b)) (slack b))) s,
     reads 0 (Z.of_nat k + 1) ++ [EvKill T SIGUSR2; EvWrite (Z.of_nat k) 0]).
Proof.
  intros Hready Hk Hfirst. pose proof (ready_bounds _ _ Hready) as Hbounds.
  destruct Hready as (Hmut & Honce & Hinit & Harr & Hbot & Hmax).
  pose proof (lookup_lt_Some _ _ _ Hk) as Hlt.
  rewrite thd_continue_locked by done.
  unfold continue_locked. mstep. case_decide; [done|]. mstep.
  rewrite (find_suspended_hit T (set_mut true s) b Harr _ k);
    [|lia|lia|lia| |].
  - mstep. rewrite Z.add_0_l. case_decide; [lia|].
    unfold pthread_kill. mstep. rewrite Nat2Z.inj_succ, <- Z.add_1_r.
    case_decide.
    + mstep. by rewrite unlock_lock.
    + mstep.
      rewrite (store_run (set_mut true s) b _ _ _ Harr (poke_slot b k 0 Hlt)).
      mstep. do 2 f_equal. destruct s; cbn in *; by subst.
  - intros j Hj. apply (differs_slots b T k); [lia|done|lia].
  - rewrite Z.add_0_l, peek_slots by lia. done.
Qed.

(** ** Initialisation *)

(** The first call of [thd_suspend] runs [suspend_init_routine]: when
    [calloc] and [sigaction] succeed the package is initialised with ten
    empty slots, and the call goes on with the mutex held. *)
Lemma thd_suspend_first e T m :
  calloc_answer e = Some m →
  sigaction_status e SIGUSR1 ≠ -1 → sigaction_status e SIGUSR2 ≠ -1 →
  thd_suspend e T initial_state
  = after [EvCalloc 10; EvSigaction SIGUSR1; EvSigaction SIGUSR2]
      (suspend_locked e T
         (State true 0 true (Some (Block (replicate 10 0) m)) 10 1 0)).
Proof.
  intros Hcalloc Hs1 Hs2.
  unfold thd_suspend, pthread_once, suspend_init_routine, calloc, sigaction,
    pthread_mutex_lock.
  unfold initial_state. mstep. rewrite Hcalloc. mstep.
  repeat (rewrite decide_False by first [done | by intros ?]; mstep).
  by destruct (suspend_locked e T _) as [[r s'] tr].
Qed.

(** After a first call that succeeds the state is ready, with the target
    in slot 0. *)
Lemma thd_suspend_first_ready e T m :
  calloc_answer e = Some m →
  sigaction_status e SIGUSR1 ≠ -1 → sigaction_status e SIGUSR2 ≠ -1 →
  kill_status e = 0 → handler_runs e = true → T ≠ 0 →
  Z.of_nat (10 + length m) < INT_MAX →
  ∃ s tr, thd_suspend e T initial_state = (Done 0, s, tr) ∧
    ready s (Block (T :: replicate 9 0) m).
Proof.
  intros Hcalloc Hs1 Hs2 Hkill Hrun HT Hlen.
  rewrite (thd_suspend_first e T m) by done.
  set (b := Block (replicate 10 0) m).
  set (s := State true 0 true (Some b) 10 1 0).
  unfold suspend_locked. mstep.
  rewrite (scan_suspended_miss T s b eq_refl (Z.to_nat (bottom s)) 0);
    [|lia|done|].
  2: { intros j Hj. exists 0. split; [|done].
       assert (∃ n : nat, j = Z.of_nat n) as [n ->]
         by (exists (Z.to_nat j); lia).
       rewrite peek_slots by (cbn in *; lia).
       apply lookup_replicate_2. cbn in Hj. lia. }
  mstep.
  rewrite (find_empty_hit s b eq_refl (mapped s) 0 0);
    [|lia|done|lia|lia|done].
  mstep. rewrite decide_False by done.
  rewrite (suspend_target_stopped e T _ s b (Block (T :: replicate 9 0) m));
    [|done..].
  mstep. eexists _, _. split; [reflexivity|].
  repeat split; done.
Qed.

(** * Suspending an already suspended thread *)

(** [thd_suspend] on a registered thread: the first scan finds it. *)
Lemma thd_suspend_found e T s b (k : nat) :
  ready s b → slots b !! k = Some T →
  (∀ j y, (j < k)%nat → slots b !! j = Some y → y ≠ T) →
  thd_suspend e T s = (Done 0, s, reads 0 (Z.of_nat k + 1)).
Proof.
  intros Hready Hk Hfirst. pose proof (ready_bounds _ _ Hready) as Hbounds.
  destruct Hready as (Hmut & Honce & _ & Harr & Hbot & Hmax).
  pose proof (lookup_lt_Some _ _ _ Hk) as Hlt.
  rewrite thd_suspend_locked by assumption.
  unfold suspend_locked. mstep.
  rewrite (scan_suspended_hit T (set_mut true s) b Harr _ k);
    [|lia|lia|lia| |].
  - mstep. rewrite app_nil_r, unlock_lock by done.
    by rewrite Nat2Z.inj_succ, <- Z.add_1_r.
  - intros j Hj. apply (differs_slots b T k); [lia|done|lia].
  - rewrite Z.add_0_l, peek_slots by lia. exact Hk.
Qed.

(** C1. Suspend is idempotent: when the target is already in a slot of the
    registry, [thd_suspend] returns 0 and leaves every global as it was
    (registry, capacity, sentinel; the mutex is free again); it only reads
    slots, up to the first one holding the target, so it sends no signal,
    writes nothing and allocates nothing. *)
Theorem thd_suspend_idempotent e T s b :
  ready s b → T ∈ slots b →
  ∃ k : nat, slots b !! k = Some T ∧ Z.of_nat k < bottom s ∧
    let tr := reads 0 (Z.of_nat k + 1) in
    thd_suspend e T s = (Done 0, s, tr) ∧
    signals tr = [] ∧ writes tr = [] ∧ reallocs tr = [].
Proof.
  intros Hready Hin.
  destruct (first_index T _ Hin) as (k & Hk & Hfirst).
  pose proof (lookup_lt_Some _ _ _ Hk) as Hlt.
  exists k. split; [exact Hk|]. split.
  - destruct Hready as (_ & _ & _ & _ & -> & _). lia.
  - cbn zeta. rewrite signals_reads, writes_reads, reallocs_reads.
    split; [|done]. by apply (thd_suspend_found e T s b k).
Qed.

Lemma ready_state_one : ready state_one block_one.
Proof. repeat split; try done. Qed.

Lemma thd_suspend_idempotent_holds :
  ready state_one block_one ∧ 5 ∈ slots block_one ∧
  ∃ k : nat, slots block_one !! k = Some 5 ∧ Z.of_nat k < bottom state_one ∧
    let tr := reads 0 (Z.of_nat k + 1) in
    thd_suspend env_ok 5 state_one = (Done 0, state_one, tr) ∧
    signals tr = [] ∧ writes tr = [] ∧ reallocs tr = [].
Proof.
  assert (5 ∈ slots block_one) as Hin by (cbn; apply list_elem_of_here).
  split; [exact ready_state_one|]. split; [exact Hin|].
  exact (thd_suspend_idempotent env_ok 5 state_one block_one
           ready_state_one Hin).
Defined.

(** ** Suspending a thread into a free slot *)

(** When a slot is free, the target exists and reaches its handler,
    [thd_suspend] signals the target, waits, and records it in the first
    free slot. *)
Lemma thd_suspend_records e T s b (k : nat) :
  ready s b → T ∉ slots b → slots b !! k = Some 0 →
  (∀ j y, (j < k)%nat → slots b !! j = Some y → y ≠ 0) →
  kill_status e = 0 → handler_runs e = true →
  thd_suspend e T s
  = (Done 0,
     set_sentinel 1
       (set_array (Some (Block (<[k := T]> (slots b)) (slack b))) s),
     reads 0 (bottom s) ++ reads 0 (Z.of_nat k + 1)
       ++ [EvKill T SIGUSR1; EvWrite (Z.of_nat k) T]).
Proof.
  intros Hready Hout Hk Hfirst Hkill Hrun.
  pose proof (ready_bounds _ _ Hready) as Hbounds.
  destruct Hready as (Hmut & Honce & _ & Harr & Hbot & Hmax).
  pose proof (lookup_lt_Some _ _ _ Hk) as Hlt.
  change (k < length (slots b))%nat in Hlt.
  rewrite thd_suspend_locked by done. unfold suspend_locked. mstep.
  rewrite (scan_suspended_miss T (set_mut true s) b Harr); [|lia|lia|].
  2: { intros j Hj. apply differs_absent; [done|lia]. }
  mstep. change (mapped (set_mut true s)) with (mapped s).
  rewrite (find_empty_hit (set_mut true s) b Harr (mapped s) k 0);
    [|lia|lia| | |].
  - mstep. rewrite decide_False by lia.
    rewrite (suspend_target_stopped e T _ (set_mut true s) b
               (Block (<[k := T]> (slots b)) (slack b))); [|done..|].
    + mstep. rewrite Z2Nat.id, Nat2Z.inj_succ, <- Z.add_1_r by lia.
      f_equal. f_equal. destruct s; cbn in *; by subst.
    + by rewrite Z.add_0_l, poke_slot.
  - unfold mapped. rewrite Harr, length_cells. lia.
  - intros j Hj. apply (differs_slots b 0 k); [lia|done|lia].
  - by rewrite Z.add_0_l, peek_slots.
Qed.

(** "Twice in a row": after a call that recorded the target, a second
    call returns 0, changes nothing and sends no further signal. *)
Lemma thd_suspend_twice e e' T s b (k : nat) :
  ready s b → T ∉ slots b → slots b !! k = Some 0 →
  (∀ j y, (j < k)%nat → slots b !! j = Some y → y ≠ 0) →
  kill_status e = 0 → handler_runs e = true →
  ∃ s1 tr1 tr2,
    thd_suspend e T s = (Done 0, s1, tr1) ∧
    thd_suspend e' T s1 = (Done 0, s1, tr2) ∧
    signals (tr1 ++ tr2) = signals tr1 ∧ writes (tr1 ++ tr2) = writes tr1.
Proof.
  intros Hready Hout Hk Hfirst Hkill Hrun.
  pose proof (lookup_lt_Some _ _ _ Hk) as Hlt.
  change (k < length (slots b))%nat in Hlt.
  eexists _, _, (reads 0 (Z.of_nat k + 1)).
  split; [by apply (thd_suspend_records e T s b k)|].
  rewrite signals_app, writes_app, signals_reads, writes_reads, !app_nil_r.
  split; [|done].
  apply (thd_suspend_found e' T _ (Block (<[k := T]> (slots b)) (slack b)) k).
  - destruct Hready as (Hmut & Honce & Hinit & Harr & Hbot & Hmax).
    apply (ready_insert s b k T); [repeat split|..]; done.
  - cbn. by rewrite list_lookup_insert_eq.
  - cbn. intros j y Hj Hy ->. rewrite list_lookup_insert_ne in Hy by lia.
    apply Hout. by eapply list_elem_of_lookup_2.
Qed.

(** * Resuming *)

(** Where the word at index [bottom] is mapped, [thd_continue] for a
    thread that is in no slot of the registry returns 0 and leaves every
    global as it was; its trace holds reads only, so no signal is sent.
    Before the package is initialised, [thd_continue] returns 0 at once,
    without touching the array. *)
Lemma thd_continue_not_suspended e T :
  (∀ s b, ready s b → T ∉ slots b → slack b ≠ [] →
     let tr := reads 0 (bottom s + 1) in
     thd_continue e T s = (Done 0, s, tr) ∧
     signals tr = [] ∧ writes tr = [] ∧ reallocs tr = []) ∧
  (∀ s, mut s = false → inited s = 0 →
     thd_continue e T s = (Done 0, s, [])).
Proof.
  split.
  - intros s b Hready Hout Hslack.
    pose proof (ready_bounds _ _ Hready) as Hbounds.
    destruct Hready as (Hmut & Honce & Hinit & Harr & Hbot & Hmax).
    cbn zeta. rewrite signals_reads, writes_reads, reallocs_reads.
    split; [|done].
    destruct (slack b) as [|y sl] eqn:Hsl; [done|].
    assert (peek b (bottom s) = Some y) as Hy.
    { rewrite Hbot, <- (Nat.add_0_r (length (slots b))), peek_slack.
      by rewrite Hsl. }
    rewrite thd_continue_locked by done.
    unfold continue_locked. mstep. case_decide; [done|]. mstep.
    pose proof (find_suspended_absent T (set_mut true s) b y Harr) as Hscan.
    cbn [bottom set_mut] in Hscan. rewrite Hscan; [|lia| |exact Hy].
    + mstep. case_decide; [|lia]. mstep.
      by rewrite app_nil_r, unlock_lock.
    + rewrite Hbot. by apply differs_absent.
  - intros s Hmut Hinit. rewrite thd_continue_locked by done.
    unfold continue_locked. mstep. case_decide; [|done]. mstep.
    by rewrite unlock_lock.
Qed.

Lemma thd_continue_not_suspended_holds :
  (ready state_one block_one ∧ (6 ∉ slots block_one) ∧
   (slack block_one ≠ []) ∧
   thd_continue env_ok 6 state_one = (Done 0, state_one, reads 0 11)) ∧
  (mut initial_state = false ∧ inited initial_state = 0 ∧
   thd_continue env_ok 6 initial_state = (Done 0, initial_state, [])).
Proof.
  assert (6 ∉ slots block_one) as Hout.
  { intros Hin. cbn in Hin.
    repeat (apply elem_of_cons in Hin as [Hin|Hin]; [discriminate|]).
    by apply elem_of_nil in Hin. }
  assert (slack block_one ≠ []) as Hslack by done.
  split.
  - split; [exact ready_state_one|]. split; [exact Hout|]. split; [exact Hslack|].
    exact (proj1 (proj1 (thd_continue_not_suspended env_ok 6)
                    state_one block_one ready_state_one Hout Hslack)).
  - split; [reflexivity|]. split; [reflexivity|].
    exact (proj2 (thd_continue_not_suspended env_ok 6)
             initial_state eq_refl eq_refl).
Defined.

(** C7. When [pthread_kill] fails in [thd_continue], the call returns the
    status of [pthread_kill] and leaves every global as it was: the slot
    still holds the target.  A later call in which the delivery succeeds
    finds the target in that slot, signals it and empties the slot. *)
Theorem thd_continue_kill_failure e T s b :
  ready s b → T ∈ slots b → kill_status e ≠ 0 →
  ∃ k : nat, slots b !! k = Some T ∧
    thd_continue e T s
    = (Done (kill_status e), s,
       reads 0 (Z.of_nat k + 1) ++ [EvKill T SIGUSR2]) ∧
    ∀ e', kill_status e' = 0 →
      thd_continue e' T s
      = (Done 0,
         set_array (Some (Block (<[k := 0]> (slots b)) (slack b))) s,
         reads 0 (Z.of_nat k + 1)
           ++ [EvKill T SIGUSR2; EvWrite (Z.of_nat k) 0]).
Proof.
  intros Hready Hin Hkill.
  destruct (first_index T _ Hin) as (k & Hk & Hfirst).
  exists k. split; [exact Hk|]. split.
  - rewrite (thd_continue_found e T s b k) by done. by rewrite decide_True.
  - intros e' Hok.
    rewrite (thd_continue_found e' T s b k) by done.
    rewrite decide_False; [done|]. by intros ?.
Qed.

Lemma thd_continue_kill_failure_holds :
  ready state_one block_one ∧ 5 ∈ slots block_one ∧ kill_status env_gone ≠ 0 ∧
  ∃ k : nat, slots block_one !! k = Some 5 ∧
    thd_continue env_gone 5 state_one
    = (Done (kill_status env_gone), state_one,
       reads 0 (Z.of_nat k + 1) ++ [EvKill 5 SIGUSR2]) ∧
    ∀ e', kill_status e' = 0 →
      thd_continue e' 5 state_one
      = (Done 0,
         set_array
           (Some (Block (<[k := 0]> (slots block_one)) (slack block_one)))
           state_one,
         reads 0 (Z.of_nat k + 1)
           ++ [EvKill 5 SIGUSR2; EvWrite (Z.of_nat k) 0]).
Proof.
  assert (5 ∈ slots block_one) as Hin by (cbn; apply list_elem_of_here).
  assert (kill_status env_gone ≠ 0) as Hkill by done.
  split; [exact ready_state_one|]. split; [exact Hin|]. split; [exact Hkill|].
  exact (thd_continue_kill_failure env_gone 5 state_one block_one
           ready_state_one Hin Hkill).
Defined.

(** C10. Whatever the state and the answers of the library, a call to
    [thd_continue] leaves [bottom], [inited], [sentinel], [once] and
    [errno] as they were and never calls [realloc].  Either it leaves the
    array as it was and writes nothing; or [pthread_kill] returned 0 and
    the one word written, after the signal, is the first one that holds
    the target, at an index below [bottom], which becomes 0 while every
    other word keeps its value and the block its size. *)
Theorem thd_continue_frame e T s :
  let '(r, s', tr) := thd_continue e T s in
  bottom s' = bottom s ∧ inited s' = inited s ∧ sentinel s' = sentinel s ∧
  once s' = once s ∧ errno s' = errno s ∧ reallocs tr = [] ∧
  (array s' = array s ∧ writes tr = []
   ∨ ∃ b b' i,
       array s = Some b ∧ 0 ≤ i < bottom s ∧ peek b i = Some T ∧
       (∀ j, 0 ≤ j < i → differs b T j) ∧
       kill_status e = 0 ∧ r = Done 0 ∧
       poke b i 0 = Some b' ∧ array s' = Some b' ∧
       length (slots b') = length (slots b) ∧
       (∀ j, peek b' j = if decide (j = i) then Some 0 else peek b j) ∧
       tr = reads 0 (i + 1) ++ [EvKill T SIGUSR2; EvWrite i 0] ∧
       writes tr = [(i, 0)]).
Proof.
  destruct (mut s) eqn:Hmut.
  { rewrite thd_continue_held by done. repeat split; by left. }
  rewrite thd_continue_locked by done. unfold continue_locked. mstep.
  case_decide as Hinit; mstep; [repeat split; by left|].
  destruct (find_suspended T (Z.to_nat (bottom s)) 0 (set_mut true s))
    as [[[i|w] s2] t1] eqn:Hscan;
    (apply find_suspended_inv in Hscan as (-> & Hq & Hr); [|lia]).
  2: { repeat split; [by apply reallocs_quiet|left].
       split; [done|by apply writes_quiet]. }
  destruct Hr as (b & Hb & Hi & Hbefore & Hat & ->). cbn in Hb.
  mstep. case_decide as Hge; mstep.
  { rewrite app_nil_r, reallocs_reads, writes_reads. repeat split; by left. }
  unfold pthread_kill. mstep. case_decide as Hkill; mstep.
  { rewrite reallocs_app, writes_app, reallocs_reads, writes_reads.
    repeat split; by left. }
  assert (peek b i = Some T) as HT.
  { destruct Hat as [?|[-> _]]; [done|lia]. }
  destruct (poke_mapped b i T 0 HT) as [b' Hpoke].
  rewrite (store_run (set_mut true s) b _ _ _ Hb Hpoke). mstep.
  rewrite reallocs_app, writes_app, reallocs_reads, writes_reads.
  repeat split. right. exists b, b', i.
  rewrite Z.sub_0_r in *.
  repeat split; try done; try lia.
  - by apply poke_length in Hpoke as [? _].
  - intros j. by apply poke_peek.
Qed.

(** * Growing the registry *)

Lemma resize_grow old f fresh :
  resize old (f :: fresh) (S (length old)) = Block (old ++ [f]) fresh.
Proof.
  unfold resize. rewrite (cons_middle f old fresh), app_assoc.
  rewrite take_app_length', drop_app_length'; [done| |];
    rewrite length_app; cbn; lia.
Qed.

Lemma suspend_target_hang e T i s :
  kill_status e = 0 → handler_runs e = false →
  suspend_target e T i s = (Stop Hang, set_sentinel 0 s, [EvKill T SIGUSR1]).
Proof.
  intros Hk Hrun. unfold suspend_target, pthread_kill, wait_for_sentinel.
  mstep. rewrite Hk. case_decide; [done|]. mstep.
  case_decide; [|done]. by rewrite Hrun.
Qed.

(** The path of [thd_suspend] through the scan and the search when no
    slot is free and the word behind the block is zero: the search stops at
    index [bottom]. *)
Lemma suspend_locked_full T s b sl :
  ready s b → T ∉ slots b → full b → slack b = 0 :: sl →
  scan_suspended T (Z.to_nat (bottom s)) 0 (set_mut true s)
  = (Done false, set_mut true s, reads 0 (bottom s)) ∧
  find_empty (mapped s) 0 (set_mut true s)
  = (Done (bottom s), set_mut true s, reads 0 (bottom s + 1)).
Proof.
  intros Hready Hout Hfull Hsl.
  pose proof (ready_bounds _ _ Hready) as Hbounds.
  destruct Hready as (Hmut & Honce & _ & Harr & Hbot & Hmax).
  assert (∃ n : nat, bottom s = Z.of_nat n) as [n Hn] by (by eexists).
  assert (n = length (slots b)) as Hlen by lia.
  rewrite Hn, Nat2Z.id. split.
  - apply (scan_suspended_miss T (set_mut true s) b Harr); [lia|lia|].
    intros j Hj. apply differs_absent; [done|lia].
  - pose proof (find_empty_hit (set_mut true s) b Harr (mapped s) n 0) as H.
    rewrite Z.add_0_l, Nat2Z.inj_succ, <- Z.add_1_r in H.
    apply H; [lia|lia| | |].
    + unfold mapped. rewrite Harr, length_cells. lia.
    + intros j Hj. apply differs_full; [done|lia].
    + rewrite Hlen, <- (Nat.add_0_r (length (slots b))), peek_slack.
      by rewrite Hsl.
Qed.

(** C9. When no slot is free and the search stops at index [bottom],
    [thd_suspend] increments [bottom], asks [realloc] for [bottom] words,
    that is one more than before, and writes the clearing marker at index
    [bottom], the word behind the new last slot.  The new slot, at index
    [bottom - 1], keeps the word [f] that [realloc] left there: it is still
    there when the delivery of the signal fails, and it is only
    overwritten by the target when the target has stopped. *)
Theorem thd_suspend_growth e T s b sl f g rest :
  ready s b → T ∉ slots b → full b → slack b = 0 :: sl →
  realloc_reply e = ReallocOk (f :: g :: rest) →
  let n := bottom s in
  let tr := reads 0 n ++ reads 0 (n + 1)
              ++ [EvRealloc (n + 1); EvWrite (n + 1) 0; EvKill T SIGUSR1] in
  thd_suspend e T s =
  if decide (kill_status e ≠ 0) then
    (Done (kill_status e), set_sentinel 0 (grown b f rest s), tr)
  else if handler_runs e then
    (Done 0, set_sentinel 1 (grown b T rest s), tr ++ [EvWrite n T])
  else
    (Stop Hang, set_mut true (set_sentinel 0 (grown b f rest s)), tr).
Proof.
  intros Hready Hout Hfull Hsl Hreply.
  destruct (suspend_locked_full T s b sl Hready Hout Hfull Hsl)
    as [Hscan Hfind].
  pose proof (ready_bounds _ _ Hready) as Hbounds.
  destruct Hready as (Hmut & Honce & _ & Harr & Hbot & Hmax).
  cbn zeta. rewrite thd_suspend_locked by done.
  unfold suspend_locked. mstep. rewrite Hscan. mstep.
  change (mapped (set_mut true s)) with (mapped s). rewrite Hfind. mstep.
  rewrite decide_True by done. mstep.
  rewrite int_succ_lt by lia.
  unfold realloc. mstep. rewrite Hreply, Harr. mstep. cbn [from_option].
  replace (Z.to_nat (bottom s + 1)) with (S (length (slots b))) by lia.
  rewrite resize_grow.
  set (s1 := set_array _ _).
  assert (store (bottom s + 1) null_pthread s1
          = (Done tt,
             set_array (Some (Block (slots b ++ [f]) (0 :: rest))) s1,
             [EvWrite (bottom s + 1) 0])) as ->.
  { apply (store_run s1 (Block (slots b ++ [f]) (g :: rest))); [done|].
    replace (bottom s + 1) with
      (Z.of_nat (length (slots (Block (slots b ++ [f]) (g :: rest))) + 0)).
    - by rewrite poke_slack by (cbn; lia).
    - cbn. rewrite length_app. cbn. lia. }
  mstep. set (s2 := set_array _ s1).
  assert (bottom s = Z.of_nat (length (slots b))) as Hn by done.
  destruct (decide (kill_status e ≠ 0)) as [Hkill|Hkill].
  - rewrite suspend_target_gone by done. mstep.
    replace (set_mut false (set_sentinel 0 s2))
      with (set_sentinel 0 (grown b f rest s)); [done|].
    subst s1 s2. destruct s; cbn in *; by subst.
  - apply dec_stable in Hkill. destruct (handler_runs e) eqn:Hrun.
    + rewrite (suspend_target_stopped e T _ s2
                 (Block (slots b ++ [f]) (0 :: rest))
                 (Block (slots b ++ [T]) (0 :: rest))); [|done..|].
      * mstep. rewrite <- !app_assoc. cbn [app].
        replace (set_mut false (set_array _ (set_sentinel 1 s2)))
          with (set_sentinel 1 (grown b T rest s)); [done|].
        subst s1 s2. destruct s; cbn in *; by subst.
      * rewrite Hn, poke_slot by (cbn; rewrite length_app; cbn; lia).
        cbn. do 2 f_equal.
        rewrite insert_app_r_alt, Nat.sub_diag by lia. done.
    + rewrite suspend_target_hang by done. mstep.
      replace (set_sentinel 0 s2)
        with (set_mut true (set_sentinel 0 (grown b f rest s))); [done|].
      subst s1 s2. destruct s; cbn in *; by subst.
Qed.

Lemma ready_state_full : ready state_full block_full.
Proof. repeat split; try done. Qed.

Lemma thd_suspend_growth_holds :
  thd_suspend env_gone 11 state_full
  = (Done ESRCH,
     State false 0 true
       (Some (Block [1; 2; 3; 4; 5; 6; 7; 8; 9; 10; 0] [0])) 11 1 0,
     reads 0 10 ++ reads 0 11
       ++ [EvRealloc 11; EvWrite 11 0; EvKill 11 SIGUSR1]) ∧
  thd_suspend env_ok 11 state_full
  = (Done 0,
     State false 1 true
       (Some (Block [1; 2; 3; 4; 5; 6; 7; 8; 9; 10; 11] [0])) 11 1 0,
     reads 0 10 ++ reads 0 11
       ++ [EvRealloc 11; EvWrite 11 0; EvKill 11 SIGUSR1; EvWrite 10 11]).
Proof.
  assert (11 ∉ slots block_full) as Hout.
  { intros Hin. cbn in Hin.
    repeat (apply elem_of_cons in Hin as [Hin|Hin]; [discriminate|]).
    by apply elem_of_nil in Hin. }
  assert (full block_full) as Hfull by (repeat constructor; done).
  split.
  - exact (thd_suspend_growth env_gone 11 state_full block_full [0] 0 0 []
             ready_state_full Hout Hfull eq_refl eq_refl).
  - exact (thd_suspend_growth env_ok 11 state_full block_full [0] 0 0 []
             ready_state_full Hout Hfull eq_refl eq_refl).
Defined.

(** * Failures of [thd_suspend] *)





Lemma reachable_state_full : reachable state_full.
Proof.
  exists (suspend_each env_ok (seqZ 1 10)). eexists _, _.
  vm_compute. reflexivity.
Qed.

Lemma suspend_full_gone :
  thd_suspend env_gone 11 state_full
  = (Done ESRCH,
     State false 0 true
       (Some (Block [1; 2; 3; 4; 5; 6; 7; 8; 9; 10; 0] [0])) 11 1 0,
     reads 0 10 ++ reads 0 11
       ++ [EvRealloc 11; EvWrite 11 0; EvKill 11 SIGUSR1]).
Proof. vm_compute. reflexivity. Qed.

Lemma not_in_block_full : 11 ∉ slots block_full.
Proof.
  intros Hin. cbn in Hin.
  repeat (apply elem_of_cons in Hin as [Hin|Hin]; [discriminate|]).
  by apply elem_of_nil in Hin.
Qed.








(** ** How far the registry stays sound

    Away from the growth path a call takes a ready state to a ready state
    and keeps the identifiers of the registry apart: [thd_continue] always
    does, and [thd_suspend] does whenever a slot is free. *)

(** What [thd_continue] can do to a ready state. *)
Lemma thd_continue_cases e T s b r s' tr :
  ready s b → thd_continue e T s = (r, s', tr) →
  s' = s
  ∨ (∃ k : nat, r = Done 0 ∧ slots b !! k = Some T ∧
       s' = set_array (Some (Block (<[k := 0]> (slots b)) (slack b))) s)
  ∨ (r = Stop Crash ∧ s' = set_mut true s).
Proof.
  intros Hready.
  destruct (decide (T ∈ slots b)) as [Hin|Hout].
  - destruct (first_index T _ Hin) as (k & Hk & Hfirst).
    rewrite (thd_continue_found e T s b k) by done.
    case_decide; intros [= <- <- <-]; [by left|].
    right; left. by exists k.
  - pose proof (ready_bounds _ _ Hready) as Hbounds.
    destruct Hready as (Hmut & Honce & Hinit & Harr & Hbot & Hmax).
    rewrite thd_continue_locked by done. unfold continue_locked. mstep.
    case_decide; [done|]. mstep.
    destruct (find_suspended T (Z.to_nat (bottom s)) 0 (set_mut true s))
      as [[[i|w] s2] t1] eqn:Hscan;
      (apply find_suspended_inv in Hscan as (-> & Hq & Hr); [|lia]).
    2: { intros [= <- <- <-]. right; right. by subst. }
    destruct Hr as (b0 & Hb0 & Hi & Hbefore & Hat & ->).
    assert (b0 = b) as -> by (cbn in Hb0; congruence).
    mstep. case_decide as Hge; mstep.
    { intros [= <- <- <-]. left. by apply unlock_lock. }
    exfalso. destruct Hat as [Hat|[-> _]]; [|lia]. apply Hout.
    assert (∃ n : nat, i = Z.of_nat n) as [n ->] by (exists (Z.to_nat i); lia).
    rewrite peek_slots in Hat by lia. by eapply list_elem_of_lookup_2.
Qed.

(** What [thd_suspend] can do to a ready state that has a free slot. *)
Lemma thd_suspend_cases e T s b r s' tr :
  ready s b → 0 ∈ slots b → thd_suspend e T s = (r, s', tr) →
  s' = s
  ∨ (∃ k : nat, r = Done 0 ∧ (T ∉ slots b) ∧ slots b !! k = Some 0 ∧
       s' = set_sentinel 1
              (set_array (Some (Block (<[k := T]> (slots b)) (slack b))) s))
  ∨ (r = Done (kill_status e) ∧ s' = set_sentinel 0 s)
  ∨ (r = Stop Hang ∧ s' = set_mut true (set_sentinel 0 s)).
Proof.
  intros Hready Hfree.
  destruct (decide (T ∈ slots b)) as [Hin|Hout].
  { destruct (first_index T _ Hin) as (k & Hk & Hfirst).
    rewrite (thd_suspend_found e T s b k) by done.
    intros [= <- <- <-]. by left. }
  destruct (first_index 0 _ Hfree) as (k & Hk & Hfirst).
  pose proof (lookup_lt_Some _ _ _ Hk) as Hlt.
  change (k < length (slots b))%nat in Hlt.
  destruct (decide (kill_status e = 0)) as [Hkill|Hkill];
    [destruct (handler_runs e) eqn:Hrun|].
  { rewrite (thd_suspend_records e T s b k) by done.
    intros [= <- <- <-]. right; left. by exists k. }
  all: pose proof (ready_bounds _ _ Hready) as Hbounds;
    destruct Hready as (Hmut & Honce & _ & Harr & Hbot & Hmax);
    rewrite thd_suspend_locked by done; unfold suspend_locked; mstep;
    (rewrite (scan_suspended_miss T (set_mut true s) b Harr);
       [|lia|lia|intros j Hj; apply differs_absent; [done|lia]]);
    mstep; change (mapped (set_mut true s)) with (mapped s);
    (rewrite (find_empty_hit (set_mut true s) b Harr (mapped s) k 0);
       [|lia|lia|unfold mapped; rewrite Harr, length_cells; lia
        |intros j Hj; apply (differs_slots b 0 k); [lia|done|lia]
        |by rewrite Z.add_0_l, peek_slots]);
    mstep; rewrite decide_False by lia.
  - rewrite suspend_target_hang by done. mstep.
    intros [= <- <- <-]. do 3 right. split; [done|].
    destruct s; cbn in *; by subst.
  - rewrite suspend_target_gone by done. mstep.
    intros [= <- <- <-]. right; right; left. split; [done|].
    destruct s; cbn in *; by subst.
Qed.

Lemma ready_sentinel v s b : ready s b → ready (set_sentinel v s) b.
Proof. by intros (? & ? & ? & ? & ? & ?). Qed.

(** A call that returns leaves a ready state ready. *)
Lemma thd_continue_ready e T s b status s' tr :
  ready s b → thd_continue e T s = (Done status, s', tr) →
  ∃ b', ready s' b'.
Proof.
  intros Hready Hrun.
  destruct (thd_continue_cases _ _ _ _ _ _ _ Hready Hrun)
    as [->|[(k & _ & _ & ->)|[[=] _]]]; [by exists b|].
  eexists.
  destruct Hready as (? & ? & ? & ? & ? & ?).
  apply (ready_insert s b k 0); [repeat split|..]; done.
Qed.

Lemma thd_suspend_ready e T s b status s' tr :
  ready s b → 0 ∈ slots b → thd_suspend e T s = (Done status, s', tr) →
  ∃ b', ready s' b'.
Proof.
  intros Hready Hfree Hrun.
  destruct (thd_suspend_cases _ _ _ _ _ _ _ Hready Hfree Hrun)
    as [->|[(k & _ & _ & _ & ->)|[[_ ->]|[[=] _]]]].
  - by exists b.
  - eexists. apply ready_sentinel.
    destruct Hready as (? & ? & ? & ? & ? & ?).
    apply (ready_insert s b k T); [repeat split|..]; done.
  - exists b. by apply ready_sentinel.
Qed.

(** Uniqueness on these paths. *)
Lemma registry_unique_same s s' :
  array s' = array s → registry_unique s → registry_unique s'.
Proof. intros Heq Hu b i j x Hb. apply Hu. by rewrite <- Heq. Qed.

Lemma registry_unique_clear s s' b (k : nat) :
  array s = Some b →
  array s' = Some (Block (<[k := 0]> (slots b)) (slack b)) →
  registry_unique s → registry_unique s'.
Proof.
  intros Hb Hb' Hu b' i j x Hb'' Hi Hj Hx.
  assert (b' = Block (<[k := 0]> (slots b)) (slack b)) as -> by congruence.
  cbn in Hi, Hj.
  destruct (decide (i = k)) as [->|Hik].
  { apply list_lookup_insert_Some in Hi as [(_ & ? & _)|(? & _)]; congruence. }
  destruct (decide (j = k)) as [->|Hjk].
  { apply list_lookup_insert_Some in Hj as [(_ & ? & _)|(? & _)]; congruence. }
  rewrite list_lookup_insert_ne in Hi, Hj by done.
  by apply (Hu b i j x).
Qed.

Lemma registry_unique_record s s' b (k : nat) T :
  array s = Some b → T ∉ slots b →
  array s' = Some (Block (<[k := T]> (slots b)) (slack b)) →
  registry_unique s → registry_unique s'.
Proof.
  intros Hb Hout Hb' Hu b' i j x Hb'' Hi Hj Hx.
  assert (b' = Block (<[k := T]> (slots b)) (slack b)) as -> by congruence.
  cbn in Hi, Hj.
  apply list_lookup_insert_Some in Hi as [(-> & <- & _)|(Hik & Hi)];
    apply list_lookup_insert_Some in Hj as [(-> & Hj & _)|(Hjk & Hj)].
  - done.
  - exfalso. apply Hout. by eapply list_elem_of_lookup_2.
  - subst x. exfalso. apply Hout. by eapply list_elem_of_lookup_2.
  - by apply (Hu b i j x).
Qed.

Lemma thd_continue_unique e T s b r s' tr :
  ready s b → registry_unique s →
  thd_continue e T s = (r, s', tr) → registry_unique s'.
Proof.
  intros Hready Hu Hrun.
  destruct (thd_continue_cases _ _ _ _ _ _ _ Hready Hrun)
    as [->|[(k & _ & _ & ->)|[_ ->]]]; [done| |].
  - destruct Hready as (_ & _ & _ & Harr & _).
    by apply (registry_unique_clear s _ b k).
  - by apply (registry_unique_same s).
Qed.

Lemma thd_suspend_unique e T s b r s' tr :
  ready s b → registry_unique s → 0 ∈ slots b →
  thd_suspend e T s = (r, s', tr) → registry_unique s'.
Proof.
  intros Hready Hu Hfree Hrun.
  destruct (thd_suspend_cases _ _ _ _ _ _ _ Hready Hfree Hrun)
    as [->|[(k & _ & Hout & _ & ->)|[[_ ->]|[_ ->]]]]; [done| | |].
  - destruct Hready as (_ & _ & _ & Harr & _).
    by apply (registry_unique_record s _ b k T).
  - by apply (registry_unique_same s).
  - by apply (registry_unique_same s).
Qed.

(** * Where the code leaves the registry damaged *)

Lemma after_trace {A} t (x : outcome A * state * list event) r s' tr :
  after t x = (r, s', tr) → ∃ rest, x = (r, s', rest) ∧ tr = t ++ rest.
Proof. destruct x as [[r0 s0] t0]. intros [= <- <- <-]. by exists t0. Qed.

(** The scan of [thd_continue] over [n] words without the target reads
    the word behind them, whatever happens next. *)
Lemma find_suspended_reads_end T s b (n : nat) : ∀ i r s' tr,
  array s = Some b → 0 ≤ i → i + Z.of_nat n ≤ INT_MAX →
  (∀ j, i ≤ j < i + Z.of_nat n → differs b T j) →
  find_suspended T n i s = (r, s', tr) → EvRead (i + Z.of_nat n) ∈ tr.
Proof.
  induction n as [|n IH]; intros i r s' tr Hb Hi Hmax Hall;
    cbn [find_suspended]; rewrite bind_after.
  - rewrite Z.add_0_r.
    destruct (load i s) as [[[x|w] s1] t1] eqn:Hl;
      apply load_inv in Hl as (-> & -> & _).
    + intros (rest & _ & ->)%after_trace. apply list_elem_of_here.
    + intros [= <- <- <-]. apply list_elem_of_here.
  - destruct (Hall i ltac:(lia)) as (x & Hx & Hne).
    rewrite (load_run _ _ _ _ Hb Hx). rewrite decide_True by done.
    rewrite int_succ_lt by lia.
    destruct (find_suspended T n (i + 1) s) as [[r2 s2] t2] eqn:Hrec.
    intros [= <- <- <-]. apply list_elem_of_further.
    replace (i + Z.of_nat (S n)) with (i + 1 + Z.of_nat n) by lia.
    apply (IH (i + 1) r2 s2 t2); [done|lia|lia| |done].
    intros j Hj. apply Hall. lia.
Qed.

(** The search of [thd_suspend] over [k] occupied words reads the word
    behind them, whatever happens next. *)
Lemma find_empty_reads_end s b (k : nat) : ∀ fuel i r s' tr,
  array s = Some b → 0 ≤ i → i + Z.of_nat k ≤ INT_MAX → (k ≤ fuel)%nat →
  (∀ j, i ≤ j < i + Z.of_nat k → differs b 0 j) →
  find_empty fuel i s = (r, s', tr) → EvRead (i + Z.of_nat k) ∈ tr.
Proof.
  induction k as [|k IH]; intros fuel i r s' tr Hb Hi Hmax Hfuel Hall.
  - rewrite Z.add_0_r. destruct fuel; cbn [find_empty]; rewrite bind_after;
      (destruct (load i s) as [[[x|w] s1] t1] eqn:Hl;
       apply load_inv in Hl as (-> & -> & _);
       [intros (rest & _ & ->)%after_trace|intros [= <- <- <-]];
       apply list_elem_of_here).
  - destruct fuel as [|fuel]; [lia|].
    cbn [find_empty]. rewrite bind_after.
    destruct (Hall i ltac:(lia)) as (x & Hx & Hne).
    rewrite (load_run _ _ _ _ Hb Hx). rewrite decide_True by done.
    rewrite int_succ_lt by lia.
    destruct (find_empty fuel (i + 1) s) as [[r2 s2] t2] eqn:Hrec.
    intros [= <- <- <-]. apply list_elem_of_further.
    replace (i + Z.of_nat (S k)) with (i + 1 + Z.of_nat k) by lia.
    apply (IH fuel (i + 1) r2 s2 t2); [done|lia|lia|lia| |done].
    intros j Hj. apply Hall. lia.
Qed.

(** In a ready state, [thd_continue] for a thread in no slot always reads
    the word at index [bottom], behind the last slot. *)
Lemma thd_continue_reads_bottom e T s b r s' tr :
  ready s b → T ∉ slots b →
  thd_continue e T s = (r, s', tr) → EvRead (bottom s) ∈ tr.
Proof.
  intros Hready Hout. pose proof (ready_bounds _ _ Hready) as Hbounds.
  destruct Hready as (Hmut & Honce & Hinit & Harr & Hbot & Hmax).
  rewrite thd_continue_locked by done. unfold continue_locked. mstep.
  case_decide; [done|]. mstep.
  destruct (find_suspended T (Z.to_nat (bottom s)) 0 (set_mut true s))
    as [[r1 s1] t1] eqn:Hscan.
  apply (find_suspended_reads_end T _ b) in Hscan; [|done|lia|lia|].
  2: { intros j Hj. apply differs_absent; [done|lia]. }
  rewrite Z.add_0_l, Z2Nat.id in Hscan by lia.
  destruct r1 as [i|w].
  - rewrite !after_nil. intros (rest & _ & ->)%after_trace.
    apply elem_of_app. by left.
  - by intros [= <- <- <-].
Qed.

(** In a ready state without a free slot, [thd_suspend] for a thread in
    no slot always reads the word at index [bottom]. *)
Lemma thd_suspend_reads_bottom e T s b r s' tr :
  ready s b → T ∉ slots b → full b →
  thd_suspend e T s = (r, s', tr) → EvRead (bottom s) ∈ tr.
Proof.
  intros Hready Hout Hfull. pose proof (ready_bounds _ _ Hready) as Hbounds.
  destruct Hready as (Hmut & Honce & Hinit & Harr & Hbot & Hmax).
  rewrite thd_suspend_locked by done. unfold suspend_locked. mstep.
  rewrite (scan_suspended_miss T (set_mut true s) b Harr); [|lia|lia|].
  2: { intros j Hj. apply differs_absent; [done|lia]. }
  mstep. change (mapped (set_mut true s)) with (mapped s).
  destruct (find_empty (mapped s) 0 (set_mut true s))
    as [[r1 s1] t1] eqn:Hfind.
  apply (find_empty_reads_end _ b (length (slots b))) in Hfind;
    [|done|lia|lia| |].
  - rewrite Z.add_0_l, <- Hbot in Hfind. rewrite ?after_nil.
    intros (rest & Hrest & ->)%after_trace. apply elem_of_app. right.
    destruct r1 as [i|w].
    + apply after_trace in Hrest as (rest' & _ & ->).
      apply elem_of_app. by left.
    + by injection Hrest as <- <- <-.
  - unfold mapped. rewrite Harr, length_cells. lia.
  - intros j Hj. apply differs_full; [done|lia].
Qed.

(** C2. The search for an empty slot is not bounded by [bottom].  After
    threads 1 to 10 have been suspended on a block that is followed by a
    non-zero word, [thd_suspend] for thread 11 reads the words at indices
    10 and 11, beyond the ten slots, takes index 11 for an empty slot, does
    not grow the registry, and stores the target outside the block: it
    returns 0 although thread 11 is in no slot. *)
Theorem suspend_search_past_bottom :
  (run (suspend_each env_tight (seqZ 1 10)) initial_state).1
  = (Done [0; 0; 0; 0; 0; 0; 0; 0; 0; 0], state_tight) ∧
  bottom state_tight = 10 ∧
  thd_suspend env_tight 11 state_tight
  = (Done 0,
     State false 1 true
       (Some (Block [1; 2; 3; 4; 5; 6; 7; 8; 9; 10] [7; 11; 0])) 10 1 0,
     reads 0 10 ++ reads 0 12 ++ [EvKill 11 SIGUSR1; EvWrite 11 11]).
Proof. repeat split; vm_compute; reflexivity. Qed.

(** C3. When [realloc] fails on the full registry, [thd_suspend] returns
    [ENOMEM], but [bottom] has been incremented and [array] is NULL: the
    ten registered threads are lost, and the next call faults on its first
    read. *)
Theorem suspend_alloc_failure_loses_registry :
  reachable state_full ∧
  thd_suspend env_nomem 11 state_full
  = (Done ENOMEM, state_lost, reads 0 10 ++ reads 0 11 ++ [EvRealloc 11]) ∧
  array state_lost = None ∧ bottom state_lost = bottom state_full + 1 ∧
  thd_continue env_ok 1 state_lost
  = (Stop Crash, set_mut true state_lost, [EvRead 0]).
Proof.
  split; [exact reachable_state_full|].
  repeat split; vm_compute; reflexivity.
Qed.

Lemma reachable_state_one : reachable state_one.
Proof.
  exists [Suspend env_ok 5]. eexists _, _. vm_compute. reflexivity.
Qed.

Lemma reachable_state_edge : reachable state_edge.
Proof.
  exists [Suspend env_edge 5]. eexists _, _. vm_compute. reflexivity.
Qed.

Lemma not_in_block_edge : 6 ∉ slots block_edge.
Proof.
  intros Hin. cbn in Hin.
  repeat (apply elem_of_cons in Hin as [Hin|Hin]; [discriminate|]).
  by apply elem_of_nil in Hin.
Qed.

(** C4. Resuming a thread that was never suspended is not always a
    no-op.  Thread 5 is suspended, and the block that [calloc] gave ends
    the mapped memory; thread 6 is in no slot.  [thd_continue] for thread 6
    scans the ten slots, reads the word at index [bottom] and faults there:
    it does not return 0, the mutex stays held, and every later call of
    the package blocks for ever. *)
Theorem continue_not_suspended_faults :
  (run [Suspend env_edge 5; Continue env_edge 6] initial_state).1
  = (Stop Crash, set_mut true state_edge) ∧
  (6 ∉ slots block_edge) ∧
  ¬ continue_absent_is_noop env_edge 6 state_edge ∧
  ∀ e T, thd_suspend e T (set_mut true state_edge)
         = (Stop Hang, set_mut true state_edge, []) ∧
         thd_continue e T (set_mut true state_edge)
         = (Stop Hang, set_mut true state_edge, []).
Proof.
  split; [vm_compute; reflexivity|]. split; [exact not_in_block_edge|].
  split; [|done].
  intros Hnoop.
  destruct (Hnoop block_edge eq_refl not_in_block_edge)
    as (s' & tr & Hrun & _).
  vm_compute in Hrun. discriminate Hrun.
Qed.

(** C5. The scan of [thd_continue] reads the word before it tests the
    index: for a thread that is in no slot it reads index [bottom], behind
    the last slot, and faults there when the block ends the mapped
    memory. *)
Theorem continue_reads_past_bottom :
  reachable state_one ∧ reachable state_edge ∧
  bottom state_one = 10 ∧
  thd_continue env_ok 6 state_one = (Done 0, state_one, reads 0 11) ∧
  reads_of (reads 0 11) = [0; 1; 2; 3; 4; 5; 6; 7; 8; 9; 10] ∧
  bottom state_edge = 10 ∧
  thd_continue env_ok 6 state_edge
  = (Stop Crash, set_mut true state_edge, reads 0 11).
Proof.
  split; [exact reachable_state_one|]. split; [exact reachable_state_edge|].
  repeat split; vm_compute; reflexivity.
Qed.

(** C8. The registry does not stay free of duplicates.  Threads 1 to 10
    are suspended; the call for thread 11 grows the registry, the new slot
    holds the word 1 left by [realloc], the clearing marker goes to the
    word behind it, and the delivery of the signal fails: thread 1 now
    occupies slots 0 and 10. *)
Theorem registry_unique_broken :
  (run (suspend_each env_ok (seqZ 1 10) ++ [Suspend env_gone_moved 11])
     initial_state).1
  = (Done [0; 0; 0; 0; 0; 0; 0; 0; 0; 0; ESRCH], state_dup) ∧
  slots block_dup !! 0%nat = Some 1 ∧ slots block_dup !! 10%nat = Some 1 ∧
  ¬ registry_unique state_dup.
Proof.
  split; [vm_compute; reflexivity|]. split; [done|]. split; [done|].
  intros H.
  assert (0%nat = 10%nat) as Heq
    by (apply (H block_dup 0%nat 10%nat 1); done).
  discriminate Heq.
Qed.

(** * Beyond the claims: what a call never does *)

Lemma callocs_quiet tr : Forall is_read tr → callocs tr = [].
Proof. induction 1 as [|ev tr [i ->] _ IH]; [done|exact IH]. Qed.

Lemma sigactions_quiet tr : Forall is_read tr → sigactions tr = [].
Proof. induction 1 as [|ev tr [i ->] _ IH]; [done|exact IH]. Qed.

Lemma callocs_app t1 t2 : callocs (t1 ++ t2) = callocs t1 ++ callocs t2.
Proof. apply omap_app. Qed.

Lemma sigactions_app t1 t2 :
  sigactions (t1 ++ t2) = sigactions t1 ++ sigactions t2.
Proof. apply omap_app. Qed.

(** Whatever the memory, the first scan of [thd_suspend] only reads, and
    it ends by itself or on a fault. *)
Lemma scan_suspended_inv T (n : nat) : ∀ i s r s' tr,
  scan_suspended T n i s = (r, s', tr) →
  s' = s ∧ Forall is_read tr ∧ (∀ w, r = Stop w → w = Crash).
Proof.
  induction n as [|n IH]; intros i s r s' tr; cbn [scan_suspended].
  - intros [= <- <- <-]. by repeat split.
  - rewrite bind_after. destruct (load i s) as [[[x|w] s1] t1] eqn:Hl;
      apply load_inv in Hl as (-> & -> & Hl).
    + case_decide.
      * intros [= <- <- <-]. repeat split; [apply Forall_is_read_one|done].
      * destruct (scan_suspended T n (int_succ i) s) as [[r2 s2] t2] eqn:Hrec.
        apply IH in Hrec as (-> & Hq & Hw).
        intros [= <- <- <-]. split; [done|]. split; [|done].
        apply Forall_cons. split; [by exists i|done].
    + intros [= <- <- <-]. split; [done|].
      split; [apply Forall_is_read_one|]. by intros ? [= <-].
Qed.

Lemma store_inv i v s r s' tr :
  store i v s = (r, s', tr) →
  tr = [EvWrite i v] ∧
  (r = Stop Crash ∧ s' = s
   ∨ ∃ b b', r = Done tt ∧ array s = Some b ∧ poke b i v = Some b' ∧
       s' = set_array (Some b') s).
Proof.
  unfold store. destruct (array s) as [b|]; [destruct (poke b i v) eqn:Hp|];
    intros [= <- <- <-]; (split; [done|]); eauto 10.
Qed.

(** The signalling part of [thd_suspend], whatever the state: one
    [SIGUSR1] for the target, at most one write, and the mutex released if
    it returns. *)
Lemma suspend_target_frame e T i s r s' tr :
  suspend_target e T i s = (r, s', tr) →
  once s' = once s ∧ inited s' = inited s ∧ bottom s' = bottom s ∧
  errno s' = errno s ∧
  signals tr = [(T, SIGUSR1)] ∧ callocs tr = [] ∧ sigactions tr = [] ∧
  reallocs tr = [] ∧ (∀ st, r = Done st → mut s' = false) ∧
  (∀ w, r = Stop w → w = Crash ∨ w = Hang).
Proof.
  unfold suspend_target, pthread_kill, wait_for_sentinel,
    suspend_signal_handler.
  mstep. case_decide; mstep;
    [intros [= <- <- <-]; by repeat split|].
  rewrite decide_True by done.
  destruct (handler_runs e); mstep;
    [|intros [= <- <- <-]; repeat split; try done; intros ? [= <-]; by right].
  destruct (store i T _) as [[r1 s1] t1] eqn:Hstore.
  apply store_inv in Hstore as (-> & [[-> ->]|(b & b' & -> & _ & _ & ->)]);
    mstep; intros [= <- <- <-]; repeat split; try done.
  intros ? [= <-]; by left.
Qed.

Ltac quiet_traces :=
  rewrite ?callocs_app, ?sigactions_app, ?signals_app, ?reallocs_app;
  rewrite ?callocs_quiet, ?sigactions_quiet, ?signals_quiet,
    ?reallocs_quiet by done.

(** The body of [thd_suspend] under the mutex, whatever the state. *)
Lemma suspend_locked_frame e T s r s' tr :
  suspend_locked e T s = (r, s', tr) →
  once s' = once s ∧ inited s' = inited s ∧
  callocs tr = [] ∧ sigactions tr = [] ∧
  (signals tr = [] ∨ signals tr = [(T, SIGUSR1)]) ∧
  (reallocs tr = [] ∧ bottom s' = bottom s
   ∨ reallocs tr = [int_succ (bottom s)] ∧ bottom s' = int_succ (bottom s)) ∧
  (errno s' = errno s ∨ r = Done ENOMEM ∧ errno s' = ENOMEM ∧ array s' = None) ∧
  (∀ st, r = Done st → mut s' = false) ∧
  (∀ w, r = Stop w → w = Crash ∨ w = Hang ∧ signals tr = [(T, SIGUSR1)]).
Proof.
  unfold suspend_locked. mstep.
  destruct (scan_suspended T (Z.to_nat (bottom s)) 0 s)
    as [[[found|w] s1] t0] eqn:Hscan;
    apply scan_suspended_inv in Hscan as (-> & Hq0 & Hw0).
  2: { intros [= <- <- <-]. quiet_traces.
       repeat split; auto; [done|]. intros ? [= <-]. left. by apply Hw0. }
  destruct found; mstep.
  { intros [= <- <- <-]. rewrite app_nil_r. quiet_traces.
    repeat split; auto; done. }
  destruct (find_empty (mapped s) 0 s) as [[[i|w] s1] t1] eqn:Hfind.
  2: { pose proof (find_empty_total _ _ _ _ Hfind) as Hnohang.
       apply find_empty_inv in Hfind as (-> & Hq1 & Hw1); [|lia].
       intros [= <- <- <-]. quiet_traces.
       repeat split; auto; [done|]. intros ? [= <-]. left.
       destruct Hw1 as [->|[-> _]]; [done|by destruct Hnohang]. }
  apply find_empty_inv in Hfind as (-> & Hq1 & _); [|lia].
  mstep. case_decide as Hgrow; mstep.
  - unfold realloc. mstep. destruct (realloc_reply e) as [|fresh]; mstep.
    { intros [= <- <- <-]. quiet_traces.
      repeat split; auto; done. }
    destruct (store _ _ _) as [[r2 s2] t2] eqn:Hstore.
    apply store_inv in Hstore
      as (-> & [[-> ->]|(b & b' & -> & _ & _ & ->)]); mstep.
    { intros [= <- <- <-]. quiet_traces.
      repeat split; auto; [done|]. intros ? [= <-]. by left. }
    destruct (suspend_target e T i _) as [[r3 s3] t3] eqn:Htarget.
    apply suspend_target_frame in Htarget
      as (Ho & Hi & Hb & He & Hsig & Hc & Hsa & Hre & Hm & Hw).
    intros [= <- <- <-]. quiet_traces. cbn -[int_succ].
    fold (callocs t3) (sigactions t3) (signals t3) (reallocs t3).
    rewrite Hsig, Hc, Hsa, Hre. cbn -[int_succ] in *.
    repeat split; auto.
    intros w Hr. destruct (Hw w Hr) as [Hc'|Hh]; subst; auto.
  - destruct (suspend_target e T i _) as [[r3 s3] t3] eqn:Htarget.
    apply suspend_target_frame in Htarget
      as (Ho & Hi & Hb & He & Hsig & Hc & Hsa & Hre & Hm & Hw).
    intros [= <- <- <-]. quiet_traces.
    rewrite Hsig, Hc, Hsa, Hre. cbn in *.
    repeat split; auto.
    intros w Hr. destruct (Hw w Hr) as [Hc'|Hh]; subst; auto.
Qed.

(** [pthread_once] with [suspend_init_routine], whatever the state: it
    leaves the mutex alone, sends no signal, and does nothing at all once
    it has run. *)
Lemma pthread_once_inv e s r s' tr :
  pthread_once (suspend_init_routine e) s = (r, s', tr) →
  mut s' = mut s ∧ signals tr = [] ∧
  (r = Done 0 ∨ r = Stop Abort) ∧
  (once s = true → s' = s ∧ tr = []).
Proof.
  unfold pthread_once, suspend_init_routine, calloc, sigaction, errno_abort.
  mstep. destruct (once s) eqn:Honce; mstep.
  { intros [= <- <- <-]. repeat split; auto. }
  destruct (calloc_answer e) as [m|]; mstep;
    repeat (case_decide; mstep);
    intros [= <- <- <-]; repeat split; auto; done.
Qed.

(** The body of [thd_continue] under the mutex, whatever the state. *)
Lemma continue_locked_frame e T s r s' tr :
  continue_locked e T s = (r, s', tr) →
  callocs tr = [] ∧ sigactions tr = [] ∧
  (signals tr = [] ∨ signals tr = [(T, SIGUSR2)]) ∧
  (∀ st, r = Done st → mut s' = false) ∧
  (∀ w, r = Stop w → w = Crash).
Proof.
  unfold continue_locked. mstep. case_decide; mstep.
  { intros [= <- <- <-]. repeat split; auto; done. }
  destruct (find_suspended T (Z.to_nat (bottom s)) 0 s)
    as [[[i|w] s2] t1] eqn:Hscan;
    (apply find_suspended_inv in Hscan as (-> & Hq & Hr); [|lia]).
  2: { intros [= <- <- <-]. quiet_traces.
       repeat split; auto; [done|]. by intros ? [= <-]. }
  mstep. case_decide; mstep.
  { intros [= <- <- <-]. rewrite app_nil_r. quiet_traces.
    repeat split; auto; done. }
  unfold pthread_kill. mstep. case_decide; mstep.
  { intros [= <- <- <-]. quiet_traces. repeat split; auto; done. }
  destruct (store i 0 _) as [[r1 s1] t2] eqn:Hstore.
  apply store_inv in Hstore as (-> & [[-> ->]|(b & b' & -> & _ & _ & ->)]);
    mstep; intros [= <- <- <-]; quiet_traces; repeat split; auto; try done.
  by intros ? [= <-].
Qed.

(** ** Signals *)

(** A call signals nobody but its target, and at most once:
    [thd_suspend] only ever sends [SIGUSR1], [thd_continue] only ever
    sends [SIGUSR2].  This holds in every state and whatever the library
    answers. *)
Theorem calls_signal_their_target e T s :
  (let '(_, _, tr) := thd_suspend e T s in
   signals tr = [] ∨ signals tr = [(T, SIGUSR1)]) ∧
  (let '(_, _, tr) := thd_continue e T s in
   signals tr = [] ∨ signals tr = [(T, SIGUSR2)]).
Proof.
  split.
  - unfold thd_suspend. rewrite bind_after.
    destruct (pthread_once _ s) as [[r0 s0] t0] eqn:Honce.
    apply pthread_once_inv in Honce as (_ & Hsig & [->| ->] & _); [|by left].
    rewrite decide_False by (by intros ?). unfold pthread_mutex_lock.
    mstep. destruct (mut s0); mstep.
    { rewrite app_nil_r. by left. }
    rewrite decide_False by (by intros ?). rewrite after_nil.
    destruct (suspend_locked e T _) as [[r s'] tr] eqn:Hrun.
    apply suspend_locked_frame in Hrun as (_ & _ & _ & _ & H & _).
    cbn. by rewrite signals_app, Hsig.
  - unfold thd_continue, pthread_mutex_lock. mstep.
    destruct (mut s); mstep; [by left|].
    rewrite decide_False by (by intros ?). rewrite after_nil.
    destruct (continue_locked e T _) as [[r s'] tr] eqn:Hrun.
    by apply continue_locked_frame in Hrun as (_ & _ & H & _).
Qed.

(** ** The mutex *)

(** A call that returns found the mutex free and leaves it free: every
    [return] of the two functions comes after [pthread_mutex_unlock]. *)
Theorem calls_release_mutex e T s status s' tr :
  thd_suspend e T s = (Done status, s', tr)
  ∨ thd_continue e T s = (Done status, s', tr) →
  mut s = false ∧ mut s' = false.
Proof.
  intros [Hrun|Hrun]; revert Hrun.
  - unfold thd_suspend. rewrite bind_after.
    destruct (pthread_once _ s) as [[r0 s0] t0] eqn:Honce.
    apply pthread_once_inv in Honce as (Hmut & _ & [->| ->] & _); [|done].
    rewrite decide_False by (by intros ?). unfold pthread_mutex_lock.
    mstep. destruct (mut s0) eqn:Hm; mstep; [done|].
    rewrite decide_False by (by intros ?). rewrite after_nil.
    destruct (suspend_locked e T _) as [[r s1] t1] eqn:Hrun.
    apply suspend_locked_frame in Hrun as (_ & _ & _ & _ & _ & _ & _ & H & _).
    intros [= -> <- <-]. split; [congruence|by eapply H].
  - unfold thd_continue, pthread_mutex_lock. mstep.
    destruct (mut s) eqn:Hm; mstep; [done|].
    rewrite decide_False by (by intros ?). rewrite after_nil.
    destruct (continue_locked e T _) as [[r s1] t1] eqn:Hrun.
    apply continue_locked_frame in Hrun as (_ & _ & _ & H & _).
    intros [= -> <- <-]. split; [done|by eapply H].
Qed.

Lemma calls_release_mutex_holds :
  thd_suspend env_ok 6 state_one
  = (Done 0,
     State false 1 true
       (Some (Block [5; 6; 0; 0; 0; 0; 0; 0; 0; 0] [0; 0])) 10 1 0,
     reads 0 10 ++ reads 0 2 ++ [EvKill 6 SIGUSR1; EvWrite 1 6]) ∧
  mut state_one = false ∧
  mut (State false 1 true
         (Some (Block [5; 6; 0; 0; 0; 0; 0; 0; 0; 0] [0; 0])) 10 1 0) = false.
Proof.
  assert (thd_suspend env_ok 6 state_one
          = (Done 0,
             State false 1 true
               (Some (Block [5; 6; 0; 0; 0; 0; 0; 0; 0; 0] [0; 0])) 10 1 0,
             reads 0 10 ++ reads 0 2 ++ [EvKill 6 SIGUSR1; EvWrite 1 6]))
    as Hrun by (vm_compute; reflexivity).
  split; [exact Hrun|].
  exact (calls_release_mutex env_ok 6 state_one _ _ _ (or_introl Hrun)).
Defined.

(** ** Initialisation *)

Lemma thd_suspend_first_run e T m :
  calloc_answer e = Some m →
  sigaction_status e SIGUSR1 ≠ -1 → sigaction_status e SIGUSR2 ≠ -1 →
  kill_status e = 0 → handler_runs e = true → T ≠ 0 →
  thd_suspend e T initial_state
  = (Done 0, between (Block (T :: replicate 9 0) m),
     [EvCalloc 10; EvSigaction SIGUSR1; EvSigaction SIGUSR2]
       ++ suspend_trace 0 T).
Proof.
  intros Hcalloc Hs1 Hs2 Hkill Hrun HT.
  rewrite (thd_suspend_first e T m) by done.
  set (b := Block (replicate 10 0) m).
  set (s := State true 0 true (Some b) 10 1 0).
  unfold suspend_locked. mstep.
  rewrite (scan_suspended_miss T s b eq_refl (Z.to_nat (bottom s)) 0);
    [|lia|done|].
  2: { intros j Hj. exists 0. split; [|done].
       assert (∃ n : nat, j = Z.of_nat n) as [n ->]
         by (exists (Z.to_nat j); lia).
       rewrite peek_slots by (cbn in *; lia).
       apply lookup_replicate_2. cbn in Hj. lia. }
  mstep.
  rewrite (find_empty_hit s b eq_refl (mapped s) 0 0);
    [|lia|done|lia|lia|done].
  mstep. rewrite decide_False by done.
  rewrite (suspend_target_stopped e T _ s b (Block (T :: replicate 9 0) m));
    [|done..].
  reflexivity.
Qed.

(** The first call of [thd_suspend], when [calloc] and [sigaction]
    succeed and the target stops: [suspend_init_routine] allocates ten
    empty slots and installs the handler of [SIGUSR1], then the one of
    [SIGUSR2]; the target is signalled and recorded in slot 0, and
    [inited] is set. *)
Theorem suspend_first_call e T m :
  calloc_answer e = Some m →
  sigaction_status e SIGUSR1 ≠ -1 → sigaction_status e SIGUSR2 ≠ -1 →
  kill_status e = 0 → handler_runs e = true → T ≠ 0 →
  thd_suspend e T initial_state
  = (Done 0,
     State false 1 true (Some (Block (T :: replicate 9 0) m)) 10 1 0,
     [EvCalloc 10; EvSigaction SIGUSR1; EvSigaction SIGUSR2]
       ++ reads 0 10 ++ reads 0 1 ++ [EvKill T SIGUSR1; EvWrite 0 T]).
Proof.
  intros Hcalloc Hs1 Hs2 Hkill Hrun HT.
  by rewrite (thd_suspend_first_run e T m).
Qed.

Lemma suspend_first_call_holds :
  thd_suspend env_tight 3 initial_state
  = (Done 0,
     State false 1 true (Some (Block (3 :: replicate 9 0) [7; 0; 0])) 10 1 0,
     [EvCalloc 10; EvSigaction SIGUSR1; EvSigaction SIGUSR2]
       ++ reads 0 10 ++ reads 0 1 ++ [EvKill 3 SIGUSR1; EvWrite 0 3]).
Proof.
  apply (suspend_first_call env_tight 3 [7; 0; 0]); done.
Defined.

(** The result of [calloc] is not tested: when it is NULL, with [errno]
    set to [ENOMEM], the routine still installs the handlers and sets
    [inited], and the first scan of the same call faults on [array[0]],
    with the mutex held. *)
Theorem suspend_first_call_no_memory e T :
  calloc_answer e = None →
  sigaction_status e SIGUSR1 ≠ -1 → sigaction_status e SIGUSR2 ≠ -1 →
  thd_suspend e T initial_state
  = (Stop Crash, State true 0 true None 10 1 ENOMEM,
     [EvCalloc 10; EvSigaction SIGUSR1; EvSigaction SIGUSR2; EvRead 0]).
Proof.
  intros Hcalloc Hs1 Hs2.
  unfold thd_suspend, pthread_once, suspend_init_routine, calloc, sigaction,
    pthread_mutex_lock.
  unfold initial_state. mstep. rewrite Hcalloc. mstep.
  repeat (rewrite decide_False by first [done | by intros ?]; mstep).
  reflexivity.
Qed.

Lemma suspend_first_call_no_memory_holds :
  thd_suspend (Env None (λ _, 0) ReallocNull 0 true) 3 initial_state
  = (Stop Crash, State true 0 true None 10 1 ENOMEM,
     [EvCalloc 10; EvSigaction SIGUSR1; EvSigaction SIGUSR2; EvRead 0]).
Proof.
  apply (suspend_first_call_no_memory
           (Env None (λ _, 0) ReallocNull 0 true) 3); done.
Defined.

(** When [sigaction] returns -1 for either handler, the first call ends
    in [errno_abort]: nobody is signalled, the mutex is not taken, and
    neither [inited] nor the once-flag is set. *)
Theorem suspend_first_call_no_handler e T :
  sigaction_status e SIGUSR1 = -1 ∨ sigaction_status e SIGUSR2 = -1 →
  ∃ s' tr, thd_suspend e T initial_state = (Stop Abort, s', tr) ∧
    signals tr = [] ∧ mut s' = false ∧ inited s' = 0 ∧ once s' = false.
Proof.
  intros Hfail.
  unfold thd_suspend, pthread_once, suspend_init_routine, calloc, sigaction,
    errno_abort.
  unfold initial_state. mstep.
  destruct (calloc_answer e) as [m|]; mstep.
  all: destruct (decide (sigaction_status e SIGUSR1 = -1)) as [H1|H1]; mstep.
  all: try (rewrite decide_True by done; mstep; by eexists _, _).
  all: rewrite decide_False by done.
  all: destruct Hfail as [?|H2]; [done|]; mstep.
  all: rewrite decide_True by done; mstep.
  all: rewrite decide_True by done; mstep; by eexists _, _.
Qed.

Lemma suspend_first_call_no_handler_holds :
  ∃ s' tr,
    thd_suspend (Env (Some []) (λ sig, match sig with
                                       | SIGUSR1 => 0
                                       | SIGUSR2 => -1
                                       end) ReallocNull 0 true) 3
      initial_state
    = (Stop Abort, s', tr) ∧
    signals tr = [] ∧ mut s' = false ∧ inited s' = 0 ∧ once s' = false.
Proof.
  apply suspend_first_call_no_handler. by right.
Defined.

(** Once [pthread_once] has run the routine, no call of [thd_suspend]
    runs it again: no [calloc], no [sigaction], [inited] and the once-flag
    stay.  A call asks [realloc] at most once, for one word more, and
    [bottom] follows; it never goes down. *)
Theorem thd_suspend_initialised e T s :
  once s = true →
  let '(r, s', tr) := thd_suspend e T s in
  once s' = true ∧ inited s' = inited s ∧
  callocs tr = [] ∧ sigactions tr = [] ∧
  (reallocs tr = [] ∧ bottom s' = bottom s
   ∨ reallocs tr = [int_succ (bottom s)] ∧ bottom s' = int_succ (bottom s)).
Proof.
  intros Honce. unfold thd_suspend, pthread_once, pthread_mutex_lock.
  mstep. rewrite Honce. mstep. rewrite decide_False by (by intros ?).
  mstep. destruct (mut s); mstep; [repeat split; auto|].
  rewrite decide_False by (by intros ?).
  destruct (suspend_locked e T _) as [[r s'] tr] eqn:Hrun.
  apply suspend_locked_frame in Hrun as (Ho & Hi & Hc & Hsa & _ & Hb & _).
  cbn in *. repeat split; auto. congruence.
Qed.

Lemma thd_suspend_initialised_holds :
  once state_full = true ∧
  let '(r, s', tr) := thd_suspend env_ok 11 state_full in
  once s' = true ∧ inited s' = inited state_full ∧
  callocs tr = [] ∧ sigactions tr = [] ∧
  (reallocs tr = [] ∧ bottom s' = bottom state_full
   ∨ reallocs tr = [int_succ (bottom state_full)] ∧
     bottom s' = int_succ (bottom state_full)).
Proof.
  split; [reflexivity|].
  exact (thd_suspend_initialised env_ok 11 state_full eq_refl).
Defined.

(** ** Suspending into a free slot, and resuming *)

Lemma accesses_app t1 t2 : accesses (t1 ++ t2) = accesses t1 ++ accesses t2.
Proof. apply omap_app. Qed.

Lemma accesses_reads i n : accesses (reads i n) = seqZ i n.
Proof.
  unfold accesses, reads. induction (seqZ i n) as [|k l IH]; [done|].
  cbn. by rewrite IH.
Qed.

Lemma Forall_seqZ_below (n m : Z) :
  n ≤ m → Forall (λ i, 0 ≤ i < m) (seqZ 0 n).
Proof. intros Hn. apply Forall_forall. intros i Hi%elem_of_seqZ. lia. Qed.

(** [thd_suspend] as far as the signalling part, when the target is in no
    slot and slot [k] is the first free one. *)
Lemma thd_suspend_free_slot e T s b (k : nat) :
  ready s b → T ∉ slots b → slots b !! k = Some 0 →
  (∀ j y, (j < k)%nat → slots b !! j = Some y → y ≠ 0) →
  thd_suspend e T s
  = after (reads 0 (bottom s) ++ reads 0 (Z.of_nat k + 1))
      (suspend_target e T (Z.of_nat k) (set_mut true s)).
Proof.
  intros Hready Hout Hk Hfirst.
  pose proof (ready_bounds _ _ Hready) as Hbounds.
  destruct Hready as (Hmut & Honce & _ & Harr & Hbot & Hmax).
  pose proof (lookup_lt_Some _ _ _ Hk) as Hlt.
  change (k < length (slots b))%nat in Hlt.
  rewrite thd_suspend_locked by done. unfold suspend_locked. mstep.
  rewrite (scan_suspended_miss T (set_mut true s) b Harr); [|lia|lia|].
  2: { intros j Hj. apply differs_absent; [done|lia]. }
  mstep. change (mapped (set_mut true s)) with (mapped s).
  rewrite (find_empty_hit (set_mut true s) b Harr (mapped s) k 0);
    [|lia|lia| | |].
  - mstep. rewrite decide_False by lia.
    rewrite Z.add_0_l, Z2Nat.id, Nat2Z.inj_succ, <- Z.add_1_r by lia.
    destruct (suspend_target e T _ _) as [[r s'] tr]. cbn.
    by rewrite app_assoc.
  - unfold mapped. rewrite Harr, length_cells. lia.
  - intros j Hj. apply (differs_slots b 0 k); [lia|done|lia].
  - by rewrite Z.add_0_l, peek_slots.
Qed.

(** The whole of a successful [thd_suspend]: when a slot is free, the
    target exists and stops, the call sends one [SIGUSR1], waits until
    [sentinel] is 1, and writes the target into the first free slot and
    nowhere else; every index it touches is below [bottom]. *)
Theorem suspend_records_target e T s b :
  ready s b → T ∉ slots b → 0 ∈ slots b →
  kill_status e = 0 → handler_runs e = true →
  ∃ (k : nat) tr,
    slots b !! k = Some 0 ∧
    (∀ j y, (j < k)%nat → slots b !! j = Some y → y ≠ 0) ∧
    thd_suspend e T s
    = (Done 0,
       set_sentinel 1
         (set_array (Some (Block (<[k := T]> (slots b)) (slack b))) s),
       tr) ∧
    signals tr = [(T, SIGUSR1)] ∧ writes tr = [(Z.of_nat k, T)] ∧
    reallocs tr = [] ∧ Forall (λ i, 0 ≤ i < bottom s) (accesses tr).
Proof.
  intros Hready Hout Hfree Hkill Hrun.
  destruct (first_index 0 _ Hfree) as (k & Hk & Hfirst).
  pose proof (lookup_lt_Some _ _ _ Hk) as Hlt.
  change (k < length (slots b))%nat in Hlt.
  exists k. eexists. split; [done|]. split; [done|].
  split; [by apply (thd_suspend_records e T s b k)|].
  destruct Hready as (_ & _ & _ & _ & Hbot & _).
  rewrite !signals_app, !writes_app, !reallocs_app, !accesses_app.
  rewrite !signals_reads, !writes_reads, !reallocs_reads, !accesses_reads.
  repeat split; try done. cbn.
  rewrite !Forall_app. repeat split.
  - by apply Forall_seqZ_below.
  - apply Forall_seqZ_below. lia.
  - apply Forall_singleton. lia.
Qed.

Lemma in_block_one : (0 : pthread_t) ∈ slots block_one.
Proof. cbn. apply list_elem_of_further, list_elem_of_here. Qed.

Lemma not_in_block_one : 6 ∉ slots block_one.
Proof.
  intros Hin. cbn in Hin.
  repeat (apply elem_of_cons in Hin as [Hin|Hin]; [discriminate|]).
  by apply elem_of_nil in Hin.
Qed.

Lemma suspend_records_target_holds :
  ∃ (k : nat) tr,
    slots block_one !! k = Some 0 ∧
    (∀ j y, (j < k)%nat → slots block_one !! j = Some y → y ≠ 0) ∧
    thd_suspend env_ok 6 state_one
    = (Done 0,
       set_sentinel 1
         (set_array
            (Some (Block (<[k := 6]> (slots block_one)) (slack block_one)))
            state_one),
       tr) ∧
    signals tr = [(6, SIGUSR1)] ∧ writes tr = [(Z.of_nat k, 6)] ∧
    reallocs tr = [] ∧ Forall (λ i, 0 ≤ i < bottom state_one) (accesses tr).
Proof.
  exact (suspend_records_target env_ok 6 state_one block_one
           ready_state_one not_in_block_one in_block_one eq_refl eq_refl).
Defined.

(** Suspend, then resume: the registry is back as it was, the target has
    received [SIGUSR1] and then [SIGUSR2], and nobody else a signal. *)
Theorem suspend_then_continue e e' T s b :
  ready s b → T ∉ slots b → 0 ∈ slots b →
  kill_status e = 0 → handler_runs e = true → kill_status e' = 0 →
  ∃ s1 tr1 tr2,
    thd_suspend e T s = (Done 0, s1, tr1) ∧
    thd_continue e' T s1 = (Done 0, set_sentinel 1 s, tr2) ∧
    signals (tr1 ++ tr2) = [(T, SIGUSR1); (T, SIGUSR2)].
Proof.
  intros Hready Hout Hfree Hkill Hrun Hkill'.
  destruct (first_index 0 _ Hfree) as (k & Hk & Hfirst).
  pose proof (lookup_lt_Some _ _ _ Hk) as Hlt.
  change (k < length (slots b))%nat in Hlt.
  set (b1 := Block (<[k := T]> (slots b)) (slack b)).
  set (s1 := set_sentinel 1 (set_array (Some b1) s)).
  assert (ready s1 b1) as Hready1.
  { apply ready_sentinel.
    destruct Hready as (? & ? & ? & ? & ? & ?).
    apply (ready_insert s b k T); [repeat split|..]; done. }
  exists s1. eexists _, _.
  split; [by apply (thd_suspend_records e T s b k)|].
  split.
  - rewrite (thd_continue_found e' T s1 b1 k); [| done | |].
    + rewrite decide_False by (by intros ?).
      do 2 f_equal.
      destruct Hready as (_ & _ & _ & Harr & _).
      subst s1 b1. cbn [slots slack].
      rewrite list_insert_insert_eq, list_insert_id by done.
      destruct s, b; cbn in *. by subst.
    + cbn. by rewrite list_lookup_insert_eq.
    + cbn. intros j y Hj Hy ->. rewrite list_lookup_insert_ne in Hy by lia.
      apply Hout. by eapply list_elem_of_lookup_2.
  - rewrite !signals_app, !signals_reads. reflexivity.
Qed.

Lemma suspend_then_continue_holds :
  ∃ s1 tr1 tr2,
    thd_suspend env_ok 6 state_one = (Done 0, s1, tr1) ∧
    thd_continue env_ok 6 s1 = (Done 0, set_sentinel 1 state_one, tr2) ∧
    signals (tr1 ++ tr2) = [(6, SIGUSR1); (6, SIGUSR2)].
Proof.
  exact (suspend_then_continue env_ok env_ok 6 state_one block_one
           ready_state_one not_in_block_one in_block_one
           eq_refl eq_refl eq_refl).
Defined.

(** [thd_continue] on a thread in no slot, when the word behind the
    block is mapped. *)
Lemma thd_continue_absent e T s b :
  ready s b → T ∉ slots b → slack b ≠ [] →
  thd_continue e T s = (Done 0, s, reads 0 (bottom s + 1)).
Proof.
  intros Hready Hout Hslack.
  pose proof (ready_bounds _ _ Hready) as Hbounds.
  destruct Hready as (Hmut & Honce & Hinit & Harr & Hbot & Hmax).
  destruct (slack b) as [|y sl] eqn:Hsl; [done|].
  assert (peek b (bottom s) = Some y) as Hy.
  { rewrite Hbot, <- (Nat.add_0_r (length (slots b))), peek_slack.
    by rewrite Hsl. }
  rewrite thd_continue_locked by done.
  unfold continue_locked. mstep. case_decide; [done|]. mstep.
  pose proof (find_suspended_absent T (set_mut true s) b y Harr) as Hscan.
  cbn [bottom set_mut] in Hscan. rewrite Hscan; [|lia| |exact Hy].
  - mstep. case_decide; [|lia]. mstep. by rewrite app_nil_r, unlock_lock.
  - rewrite Hbot. by apply differs_absent.
Qed.

(** Resume, then resume again: when the target occupies one slot, the
    first call signals it and empties the slot, and the second call finds
    nothing, sends no signal and changes nothing. *)
Theorem continue_twice e e' T s b (k : nat) :
  ready s b → T ≠ 0 → slots b !! k = Some T →
  (∀ j, j ≠ k → slots b !! j ≠ Some T) → slack b ≠ [] →
  kill_status e = 0 →
  ∃ s1 tr1 tr2,
    thd_continue e T s = (Done 0, s1, tr1) ∧
    signals tr1 = [(T, SIGUSR2)] ∧
    thd_continue e' T s1 = (Done 0, s1, tr2) ∧
    signals tr2 = [] ∧ writes tr2 = [].
Proof.
  intros Hready HT Hk Honly Hslack Hkill.
  set (b1 := Block (<[k := 0]> (slots b)) (slack b)).
  set (s1 := set_array (Some b1) s).
  assert (ready s1 b1) as Hready1.
  { destruct Hready as (? & ? & ? & ? & ? & ?).
    apply (ready_insert s b k 0); [repeat split|..]; done. }
  exists s1, (reads 0 (Z.of_nat k + 1)
                ++ [EvKill T SIGUSR2; EvWrite (Z.of_nat k) 0]),
    (reads 0 (bottom s1 + 1)).
  split; [|split; [|split]].
  - rewrite (thd_continue_found e T s b k); [|done|done|].
    + by rewrite decide_False by (by intros ?).
    + intros j y Hj Hy ->. by apply (Honly j); [lia|].
  - by rewrite signals_app, signals_reads.
  - apply (thd_continue_absent e' T s1 b1); [done| |done].
    intros (j & Hj)%list_elem_of_lookup_1. cbn in Hj.
    apply list_lookup_insert_Some in Hj as [(_ & ? & _)|(Hne & Hj)];
      [congruence|].
    by apply (Honly j).
  - by rewrite signals_reads, writes_reads.
Qed.

Lemma continue_twice_holds :
  ∃ s1 tr1 tr2,
    thd_continue env_ok 5 state_one = (Done 0, s1, tr1) ∧
    signals tr1 = [(5, SIGUSR2)] ∧
    thd_continue env_gone 5 s1 = (Done 0, s1, tr2) ∧
    signals tr2 = [] ∧ writes tr2 = [].
Proof.
  apply (continue_twice env_ok env_gone 5 state_one block_one 0);
    [exact ready_state_one|done|done| |done|done].
  intros [|j] Hj; [done|]. cbn.
  do 9 (destruct j as [|j]; [done|]). done.
Defined.

(** ** The null identifier

    An empty slot holds 0, so the scans take the identifier 0 for a
    registered thread as soon as a slot is free: [thd_suspend (0)] returns
    0 without a signal, and [thd_continue (0)] sends [SIGUSR2] to thread 0
    and returns what [pthread_kill] answers; the registry is unchanged. *)
Theorem null_identifier e s b :
  ready s b → 0 ∈ slots b →
  (∃ tr, thd_suspend e 0 s = (Done 0, s, tr) ∧ signals tr = []) ∧
  (∃ tr, thd_continue e 0 s = (Done (kill_status e), s, tr) ∧
         signals tr = [(0, SIGUSR2)]).
Proof.
  intros Hready Hfree.
  destruct (first_index 0 _ Hfree) as (k & Hk & Hfirst).
  split.
  - eexists. split; [by apply (thd_suspend_found e 0 s b k)|].
    apply signals_reads.
  - rewrite (thd_continue_found e 0 s b k) by done.
    case_decide as Hkill.
    + eexists. split; [reflexivity|]. by rewrite signals_app, signals_reads.
    + rewrite Hkill. eexists. split.
      * f_equal. f_equal. rewrite list_insert_id by done.
        destruct Hready as (_ & _ & _ & Harr & _).
        destruct s, b; cbn in *. by subst.
      * by rewrite signals_app, signals_reads.
Qed.

Lemma null_identifier_holds :
  (∃ tr, thd_suspend env_gone 0 state_one = (Done 0, state_one, tr) ∧
         signals tr = []) ∧
  (∃ tr, thd_continue env_gone 0 state_one = (Done ESRCH, state_one, tr) ∧
         signals tr = [(0, SIGUSR2)]).
Proof.
  exact (null_identifier env_gone state_one block_one
           ready_state_one in_block_one).
Defined.

(** ** A target that never stops

    When the signal is delivered but the target never sets [sentinel],
    [thd_suspend] spins for ever with the mutex held and the target
    unrecorded, and every later call blocks on the mutex. *)
Theorem suspend_without_answer e T s b :
  ready s b → T ∉ slots b → 0 ∈ slots b →
  kill_status e = 0 → handler_runs e = false →
  ∃ tr,
    let s' := set_mut true (set_sentinel 0 s) in
    thd_suspend e T s = (Stop Hang, s', tr) ∧
    signals tr = [(T, SIGUSR1)] ∧ writes tr = [] ∧
    ∀ e' T', thd_suspend e' T' s' = (Stop Hang, s', []) ∧
             thd_continue e' T' s' = (Stop Hang, s', []).
Proof.
  intros Hready Hout Hfree Hkill Hrun.
  destruct (first_index 0 _ Hfree) as (k & Hk & Hfirst).
  eexists. cbn zeta. split; [|split; [|split]].
  - rewrite (thd_suspend_free_slot e T s b k) by done.
    rewrite suspend_target_hang by done. reflexivity.
  - by rewrite !signals_app, !signals_reads.
  - by rewrite !writes_app, !writes_reads.
  - intros e' T'. split; [|by apply thd_continue_held].
    destruct Hready as (_ & Honce & _).
    unfold thd_suspend, pthread_once, pthread_mutex_lock. mstep.
    rewrite Honce. mstep. by rewrite decide_False by (by intros ?).
Qed.

Lemma suspend_without_answer_holds :
  ∃ tr,
    let s' := set_mut true (set_sentinel 0 state_one) in
    thd_suspend (Env None (λ _, 0) ReallocNull 0 false) 6 state_one
    = (Stop Hang, s', tr) ∧
    signals tr = [(6, SIGUSR1)] ∧ writes tr = [] ∧
    ∀ e' T', thd_suspend e' T' s' = (Stop Hang, s', []) ∧
             thd_continue e' T' s' = (Stop Hang, s', []).
Proof.
  exact (suspend_without_answer (Env None (λ _, 0) ReallocNull 0 false) 6
           state_one block_one ready_state_one not_in_block_one in_block_one
           eq_refl eq_refl).
Defined.

(** ** Registered threads stay registered *)

Lemma poke_other_slot b i v b' (k : nat) x :
  poke b i v = Some b' → Z.of_nat k ≠ i →
  slots b !! k = Some x → slots b' !! k = Some x.
Proof.
  unfold poke. case_decide; [|discriminate]. cbn zeta.
  repeat case_decide; intros [= <-] Hne Hk; cbn; [|done].
  rewrite list_lookup_insert_ne by lia. done.
Qed.

Lemma suspend_target_array e T i s r s' tr :
  suspend_target e T i s = (r, s', tr) →
  array s' = array s
  ∨ ∃ b b', array s = Some b ∧ poke b i T = Some b' ∧ array s' = Some b'.
Proof.
  unfold suspend_target, pthread_kill, wait_for_sentinel,
    suspend_signal_handler.
  mstep. case_decide; mstep; [intros [= <- <- <-]; by left|].
  rewrite decide_True by done.
  destruct (handler_runs e); mstep; [|intros [= <- <- <-]; by left].
  destruct (store i T _) as [[r1 s1] t1] eqn:Hstore.
  apply store_inv in Hstore as (-> & [[-> ->]|(b & b' & -> & Hb & Hp & ->)]);
    mstep; intros [= <- <- <-]; [by left|].
  right. by exists b, b'.
Qed.

(** Whatever the library answers, [thd_suspend] evicts nobody from a
    ready registry: every slot that holds an identifier still holds it
    after the call.  The one exception is the failure of [realloc] on a
    full registry, which leaves [array] NULL. *)
Theorem suspend_keeps_registered e T s b r s' tr :
  ready s b → thd_suspend e T s = (r, s', tr) →
  (array s' = None ∧ realloc_reply e = ReallocNull ∧ full b)
  ∨ ∃ b', array s' = Some b' ∧
      ∀ (k : nat) x, slots b !! k = Some x → x ≠ 0 → slots b' !! k = Some x.
Proof.
  intros Hready.
  destruct (decide (T ∈ slots b)) as [Hin|Hout].
  { destruct (first_index T _ Hin) as (k & Hk & Hfirst).
    rewrite (thd_suspend_found e T s b k) by done.
    destruct Hready as (_ & _ & _ & Harr & _).
    intros [= <- <- <-]. right. by exists b. }
  pose proof (ready_bounds _ _ Hready) as Hbounds.
  destruct Hready as (Hmut & Honce & _ & Harr & Hbot & Hmax).
  rewrite thd_suspend_locked by done. unfold suspend_locked. mstep.
  rewrite (scan_suspended_miss T (set_mut true s) b Harr); [|lia|lia|].
  2: { intros j Hj. apply differs_absent; [done|lia]. }
  mstep. change (mapped (set_mut true s)) with (mapped s).
  destruct (find_empty (mapped s) 0 (set_mut true s))
    as [[[i|w] s2] t1] eqn:Hfind;
    (apply find_empty_inv in Hfind as (-> & Hq & Hr); [|lia]).
  2: { intros [= <- <- <-]. right. by exists b. }
  destruct Hr as (b0 & Hb0 & Hi & Hbefore & Hzero & Ht1).
  assert (b0 = b) as -> by (cbn in Hb0; congruence).
  assert (∀ (k : nat) x, slots b !! k = Some x → x ≠ 0 → Z.of_nat k ≠ i)
    as Hother.
  { intros k x Hk Hx <-.
    rewrite peek_slots in Hzero by (by eapply lookup_lt_Some).
    unfold pthread_t in *. congruence. }
  mstep. case_decide as Hgrow; mstep.
  - rewrite int_succ_lt by lia. unfold realloc. mstep.
    rewrite Harr. cbn [from_option].
    destruct (realloc_reply e) as [|fresh] eqn:Hreply; mstep.
    { intros [= <- <- <-]. left. repeat split.
      apply Forall_lookup. intros j x Hx ->.
      destruct (Hbefore (Z.of_nat j)) as (y & Hy & Hne).
      { apply lookup_lt_Some in Hx. unfold pthread_t in *. lia. }
      rewrite peek_slots in Hy by (by eapply lookup_lt_Some).
      unfold pthread_t in *. congruence. }
    set (nb := resize _ _ _).
    assert (∀ (k : nat) x, slots b !! k = Some x → slots nb !! k = Some x)
      as Hnb.
    { intros k x Hk. pose proof (lookup_lt_Some _ _ _ Hk) as Hlt.
      subst nb. unfold resize. cbn [slots].
      rewrite lookup_take_lt by lia. by rewrite lookup_app_l. }
    destruct (store _ _ _) as [[r2 s3] t2] eqn:Hstore.
    apply store_inv in Hstore
      as (-> & [[-> ->]|(b1 & b1' & -> & Hb1 & Hp1 & ->)]); mstep.
    { intros [= <- <- <-]. right. exists nb. split; [done|]. auto. }
    assert (b1 = nb) as -> by (cbn in Hb1; congruence).
    assert (∀ (k : nat) x, slots b !! k = Some x → slots b1' !! k = Some x)
      as Hnb'.
    { intros k x Hk. pose proof (lookup_lt_Some _ _ _ Hk) as Hlt.
      apply (poke_other_slot nb _ _ _ k x Hp1); [|by apply Hnb].
      unfold pthread_t in *. lia. }
    destruct (suspend_target e T i _) as [[r3 s4] t3] eqn:Htarget.
    apply suspend_target_array in Htarget
      as [Hsame|(b2 & b2' & Hb2 & Hp2 & Hb2')].
    + intros [= <- <- <-]. right. exists b1'. split; [by rewrite Hsame|].
      auto.
    + intros [= <- <- <-]. right. exists b2'. split; [done|].
      assert (b2 = b1') as -> by (cbn in Hb2; congruence).
      intros k x Hk Hx. apply (poke_other_slot b1' _ _ _ k x Hp2); eauto.
  - destruct (suspend_target e T i _) as [[r3 s4] t3] eqn:Htarget.
    apply suspend_target_array in Htarget
      as [Hsame|(b2 & b2' & Hb2 & Hp2 & Hb2')].
    + intros [= <- <- <-]. right. exists b. split; [by rewrite Hsame|].
      auto.
    + intros [= <- <- <-]. right. exists b2'. split; [done|].
      assert (b2 = b) as -> by (cbn in Hb2; congruence).
      intros k x Hk Hx. apply (poke_other_slot b _ _ _ k x Hp2); eauto.
Qed.

Lemma suspend_keeps_registered_holds :
  (array (State false 0 true
            (Some (Block [1; 2; 3; 4; 5; 6; 7; 8; 9; 10; 0] [0])) 11 1 0)
   = None ∧ realloc_reply env_gone = ReallocNull ∧ full block_full)
  ∨ ∃ b', array (State false 0 true
                   (Some (Block [1; 2; 3; 4; 5; 6; 7; 8; 9; 10; 0] [0]))
                   11 1 0) = Some b' ∧
      ∀ (k : nat) x, slots block_full !! k = Some x → x ≠ 0 →
                     slots b' !! k = Some x.
Proof.
  exact (suspend_keeps_registered env_gone 11 state_full block_full _ _ _
           ready_state_full suspend_full_gone).
Defined.

(** [thd_continue] removes nobody but its target: in a ready state,
    every slot that holds another identifier still holds it after the
    call, whatever the library answers, and the block keeps its size. *)
Theorem continue_keeps_others e T s b r s' tr :
  ready s b → thd_continue e T s = (r, s', tr) →
  ∃ b', array s' = Some b' ∧ length (slots b') = length (slots b) ∧
    ∀ (k : nat) x, slots b !! k = Some x → x ≠ T → slots b' !! k = Some x.
Proof.
  intros Hready Hrun.
  pose proof Hready as (_ & _ & _ & Harr & _).
  destruct (thd_continue_cases _ _ _ _ _ _ _ Hready Hrun)
    as [->|[(k & _ & Hk & ->)|[_ ->]]].
  - by exists b.
  - eexists. split; [reflexivity|]. cbn. split; [by rewrite length_insert|].
    intros j x Hj Hx. rewrite list_lookup_insert_ne; [done|].
    intros <-. unfold pthread_t in *. congruence.
  - by exists b.
Qed.

Lemma continue_keeps_others_holds :
  ∃ b', array (State false 1 true
                 (Some (Block [0; 2; 3; 4; 5; 6; 7; 8; 9; 10] [0; 0]))
                 10 1 0) = Some b' ∧
    length (slots b') = length (slots block_full) ∧
    ∀ (k : nat) x, slots block_full !! k = Some x → x ≠ 1 →
                   slots b' !! k = Some x.
Proof.
  apply (continue_keeps_others env_ok 1 state_full block_full (Done 0) _
           (reads 0 1 ++ [EvKill 1 SIGUSR2; EvWrite 0 0]) ready_state_full).
  vm_compute. reflexivity.
Defined.

(** ** The invariant of the registry away from the growth path *)

(** In a ready state [bottom] is the number of slots of the block.  A
    call of [thd_continue] that returns, or a call of [thd_suspend] that
    returns after it found a free slot, leaves the state ready with the
    same number of slots, and a registry without duplicates stays
    without duplicates. *)
Theorem calls_keep_registry_sound e T s b status s' tr :
  ready s b → registry_unique s →
  thd_continue e T s = (Done status, s', tr)
  ∨ 0 ∈ slots b ∧ thd_suspend e T s = (Done status, s', tr) →
  registry_unique s' ∧
  ∃ b', ready s' b' ∧ length (slots b') = length (slots b).
Proof.
  intros Hready Hu [Hrun|[Hfree Hrun]].
  - split; [by eapply thd_continue_unique|].
    destruct (thd_continue_cases _ _ _ _ _ _ _ Hready Hrun)
      as [->|[(k & _ & _ & ->)|[[=] _]]]; [by exists b|].
    exists (Block (<[k := 0]> (slots b)) (slack b)).
    split; [|by cbn; rewrite length_insert].
    destruct Hready as (? & ? & ? & ? & ? & ?).
    apply (ready_insert s b k 0); [repeat split|..]; done.
  - split; [by eapply thd_suspend_unique|].
    destruct (thd_suspend_cases _ _ _ _ _ _ _ Hready Hfree Hrun)
      as [->|[(k & _ & _ & _ & ->)|[[_ ->]|[[=] _]]]].
    + by exists b.
    + exists (Block (<[k := T]> (slots b)) (slack b)).
      split; [|by cbn; rewrite length_insert].
      apply ready_sentinel.
      destruct Hready as (? & ? & ? & ? & ? & ?).
      apply (ready_insert s b k T); [repeat split|..]; done.
    + exists b. split; [by apply ready_sentinel|done].
Qed.

Lemma unique_state_one : registry_unique state_one.
Proof.
  assert (∀ (i : nat) x, slots block_one !! i = Some x → x ≠ 0 → i = 0%nat)
    as Hfirst.
  { intros i x Hi Hx. destruct i as [|i]; [done|]. exfalso. cbn in Hi.
    do 9 (destruct i as [|i]; [cbn in Hi; congruence|]). discriminate. }
  intros b i j x [= <-] Hi Hj Hx.
  by rewrite (Hfirst i x), (Hfirst j x).
Qed.

Lemma calls_keep_registry_sound_holds :
  registry_unique
    (State false 1 true
       (Some (Block [5; 6; 0; 0; 0; 0; 0; 0; 0; 0] [0; 0])) 10 1 0) ∧
  ∃ b', ready
          (State false 1 true
             (Some (Block [5; 6; 0; 0; 0; 0; 0; 0; 0; 0] [0; 0])) 10 1 0) b' ∧
        length (slots b') = length (slots block_one).
Proof.
  apply (calls_keep_registry_sound env_ok 6 state_one block_one 0 _
           (reads 0 10 ++ reads 0 2 ++ [EvKill 6 SIGUSR1; EvWrite 1 6])
           ready_state_one unique_state_one).
  right. split; [exact in_block_one|]. vm_compute. reflexivity.
Defined.

(** ** Witnesses of the general lemmas above *)

Lemma thd_suspend_twice_holds :
  ∃ s1 tr1 tr2,
    thd_suspend env_ok 6 state_one = (Done 0, s1, tr1) ∧
    thd_suspend env_gone 6 s1 = (Done 0, s1, tr2) ∧
    signals (tr1 ++ tr2) = signals tr1 ∧ writes (tr1 ++ tr2) = writes tr1.
Proof.
  apply (thd_suspend_twice env_ok env_gone 6 state_one block_one 1);
    [exact ready_state_one|exact not_in_block_one|done| |done|done].
  intros [|j] y Hj; [by intros [= <-]|lia].
Defined.

Lemma thd_continue_reads_bottom_holds :
  EvRead (bottom state_edge) ∈ reads 0 11.
Proof.
  apply (thd_continue_reads_bottom env_ok 6 state_edge block_edge
           (Stop Crash) (set_mut true state_edge) (reads 0 11)).
  - repeat split; done.
  - intros Hin. cbn in Hin.
    repeat (apply elem_of_cons in Hin as [Hin|Hin]; [discriminate|]).
    by apply elem_of_nil in Hin.
  - vm_compute. reflexivity.
Defined.

Lemma thd_suspend_reads_bottom_holds :
  EvRead (bottom state_full) ∈
    reads 0 10 ++ reads 0 11
      ++ [EvRealloc 11; EvWrite 11 0; EvKill 11 SIGUSR1].
Proof.
  assert (full block_full) as Hfull by (repeat constructor; done).
  exact (thd_suspend_reads_bottom env_gone 11 state_full block_full _ _ _
           ready_state_full not_in_block_full Hfull suspend_full_gone).
Defined.

(** * The test program *)

(** ** The loops of [main] *)

Lemma create_threads_run me (n : nat) i threads p :
  0 ≤ i → i + Z.of_nat n < INT_MAX →
  (∀ k, i ≤ k < i + Z.of_nat n → create_status me k = 0) →
  ∃ threads', create_threads me n i threads p = (Done threads', p, []) ∧
    (∀ k, i ≤ k < i + Z.of_nat n → threads' k = created me k) ∧
    (∀ k, k < i → threads' k = threads k).
Proof.
  revert i threads. induction n as [|n IH]; intros i threads Hi Hmax Hok.
  - exists threads. split; [done|]. split; [intros; lia|done].
  - cbn [create_threads]. unfold mbind, P_bind, bindP, pthread_create.
    cbn [mret P_ret retP].
    rewrite (decide_True (P := create_status me i = 0)) by (apply Hok; lia).
    cbn [fst snd]. rewrite decide_False by (by intros H).
    rewrite int_succ_lt by lia.
    destruct (IH (i + 1) (<[i := created me i]> threads))
      as (threads' & Hrun & Hin & Hout); [lia|lia|intros; apply Hok; lia|].
    rewrite Hrun. exists threads'. split; [done|]. split.
    + intros k Hk. destruct (decide (k = i)) as [->|Hne].
      * rewrite Hout by lia. apply fn_lookup_insert.
      * apply Hin. lia.
    + intros k Hk. rewrite Hout by lia. apply fn_lookup_insert_ne. lia.
Qed.

Lemma ready_between b :
  length (slots b) = 10%nat → Z.of_nat (10 + length (slack b)) < INT_MAX →
  ready (between b) b.
Proof.
  intros Hslots Hmax. repeat split; try done.
  - cbn. unfold pthread_t in *. lia.
  - rewrite length_cells. unfold pthread_t in *. lia.
Qed.

Lemma length_filling threads base (j : nat) m :
  (j ≤ 10)%nat → length (slots (filling threads base j m)) = 10%nat.
Proof.
  intros Hj. cbn. rewrite length_app, length_fmap, length_seqZ, length_replicate.
  lia.
Qed.

Lemma filling_lookup threads base (j k : nat) m y :
  (k < j)%nat → slots (filling threads base j m) !! k = Some y →
  y = threads (base + Z.of_nat k).
Proof.
  intros Hk. cbn.
  rewrite lookup_app_l by (rewrite length_fmap, length_seqZ; lia).
  rewrite list_lookup_fmap, lookup_seqZ_lt by lia. by intros [= <-].
Qed.

Lemma filling_free threads base (j : nat) m :
  (j < 10)%nat → slots (filling threads base j m) !! j = Some 0.
Proof.
  intros Hj. cbn.
  rewrite lookup_app_r by (rewrite length_fmap, length_seqZ; lia).
  rewrite length_fmap, length_seqZ. apply lookup_replicate_2. lia.
Qed.

Lemma filling_insert threads base (j : nat) m :
  (j < 10)%nat →
  <[j := threads (base + Z.of_nat j)]> (slots (filling threads base j m))
  = slots (filling threads base (S j) m).
Proof.
  intros Hj. cbn.
  replace j with (length (threads <$> seqZ base (Z.of_nat j)) + 0)%nat at 1
    by (rewrite length_fmap, length_seqZ; lia).
  rewrite insert_app_r, seqZ_S, fmap_app, <- app_assoc. f_equal.
  replace (10 - j)%nat with (S (10 - S j)) by lia. done.
Qed.

Lemma filling_absent threads base (j : nat) m :
  (j < 10)%nat → threads (base + Z.of_nat j) ≠ 0 →
  (∀ k, base ≤ k < base + Z.of_nat j →
        threads k ≠ threads (base + Z.of_nat j)) →
  threads (base + Z.of_nat j) ∉ slots (filling threads base j m).
Proof.
  intros Hj Hnz Hinj. cbn. intros [Hin|Hin]%elem_of_app.
  - apply list_elem_of_fmap in Hin as (k & Heq & Hk%elem_of_seqZ).
    by apply (Hinj k).
  - by apply elem_of_replicate in Hin as [? _].
Qed.

(** A loop of [main] over [thd_suspend], started when the first [j] of the
    threads from [base] on are recorded: it records the next [n]. *)
Lemma suspend_threads_run me m threads base (n j : nat) out :
  (j + n ≤ 10)%nat → 0 ≤ base → base + 10 < INT_MAX →
  Z.of_nat (10 + length m) < INT_MAX →
  (∀ k, base ≤ k < base + Z.of_nat (j + n) → threads k ≠ 0) →
  (∀ k k', base ≤ k < k' → k' < base + Z.of_nat (j + n) →
           threads k ≠ threads k') →
  (∀ k, base + Z.of_nat j ≤ k < base + Z.of_nat (j + n) →
        kill_status (suspend_env me k) = 0 ∧
        handler_runs (suspend_env me k) = true) →
  suspend_threads me threads n (base + Z.of_nat j)
    (Process (between (filling threads base j m)) out None)
  = (Done tt,
     Process (between (filling threads base (j + n) m))
       (out ++ ((λ i, Printf "Suspending thread %d.\n" [i])
                  <$> seqZ (base + Z.of_nat j) (Z.of_nat n))) None,
     mjoin ((λ k, suspend_trace k (threads (base + k)))
              <$> seqZ (Z.of_nat j) (Z.of_nat n))).
Proof.
  intros Hn Hbase Hmax Hm. revert j out Hn.
  induction n as [|n IH]; intros j out Hn Hnz Hinj Hfine.
  - rewrite Nat.add_0_r, !seqZ_nil, app_nil_r by lia. done.
  - cbn [suspend_threads]. unfold mbind, P_bind, bindP, printf, in_globals.
    cbn [globals printed failure].
    destruct (Hfine (base + Z.of_nat j)) as [Hkill Hruns]; [lia|].
    rewrite (thd_suspend_records _ _ (between (filling threads base j m))
               (filling threads base j m) j); [|
      apply ready_between; [apply length_filling; lia|done] |
      apply filling_absent; [lia|apply Hnz; lia|
        intros k Hk; apply Hinj; lia] |
      apply filling_free; lia |
      intros k y Hk ->%filling_lookup; [apply Hnz|]; lia |
      done | done].
    rewrite decide_False by (by intros H).
    rewrite int_succ_lt, filling_insert by lia.
    change (set_sentinel 1 (set_array _ _))
      with (between (filling threads base (S j) m)).
    replace (base + Z.of_nat j + 1) with (base + Z.of_nat (S j)) by lia.
    rewrite IH;
      [|lia|intros; apply Hnz; lia|intros; apply Hinj; lia|
        intros; apply Hfine; lia].
    change (bottom (between _)) with 10.
    rewrite (seqZ_cons (base + Z.of_nat j)), (seqZ_cons (Z.of_nat j)) by lia.
    rewrite !fmap_cons. cbn [mjoin list_join].
    replace (Z.pred (Z.of_nat (S n))) with (Z.of_nat n) by lia.
    replace (Z.succ (base + Z.of_nat j)) with (base + Z.of_nat (S j)) by lia.
    replace (Z.succ (Z.of_nat j)) with (Z.of_nat (S j)) by lia.
    replace (j + S n)%nat with (S j + n)%nat by lia.
    unfold suspend_trace. rewrite <- !app_assoc. reflexivity.
Qed.

Lemma length_emptying threads base (j : nat) m :
  (j ≤ 10)%nat → length (slots (emptying threads base j m)) = 10%nat.
Proof.
  intros Hj. cbn. rewrite length_app, length_fmap, length_seqZ, length_replicate.
  lia.
Qed.

Lemma emptying_lookup threads base (j k : nat) m y :
  (k < j)%nat → slots (emptying threads base j m) !! k = Some y → y = 0.
Proof.
  intros Hk. cbn. rewrite lookup_app_l by (rewrite length_replicate; lia).
  by intros [-> _]%lookup_replicate_1.
Qed.

Lemma emptying_found threads base (j : nat) m :
  (j < 10)%nat →
  slots (emptying threads base j m) !! j = Some (threads (base + Z.of_nat j)).
Proof.
  intros Hj. cbn. rewrite lookup_app_r by (rewrite length_replicate; lia).
  rewrite length_replicate, Nat.sub_diag, list_lookup_fmap.
  rewrite lookup_seqZ_lt by lia. cbn. by rewrite Z.add_0_r.
Qed.

Lemma emptying_insert threads base (j : nat) m :
  (j < 10)%nat →
  <[j := 0]> (slots (emptying threads base j m))
  = slots (emptying threads base (S j) m).
Proof.
  intros Hj. cbn.
  replace j with (length (replicate j 0%Z) + 0)%nat at 1
    by (rewrite length_replicate; lia).
  rewrite insert_app_r, seqZ_cons by lia. cbn [fmap list_fmap insert list_insert].
  rewrite app_comm_cons, replicate_cons_app, <- app_assoc. cbn [app].
  replace (Z.succ (base + Z.of_nat j)) with (base + Z.of_nat (S j)) by lia.
  replace (Z.pred (Z.of_nat (10 - j))) with (Z.of_nat (10 - S j)) by lia.
  done.
Qed.

(** A loop of [main] over [thd_continue], started when the first [j] of
    ten recorded threads have been resumed: it resumes the next [n]. *)
Lemma continue_threads_run me m threads text base (n j : nat) out :
  (j + n ≤ 10)%nat → 0 ≤ base → base + 10 < INT_MAX →
  Z.of_nat (10 + length m) < INT_MAX →
  (∀ k, base ≤ k < base + Z.of_nat (j + n) → threads k ≠ 0) →
  (∀ k, base + Z.of_nat j ≤ k < base + Z.of_nat (j + n) →
        kill_status (continue_env me k) = 0) →
  continue_threads me threads text n (base + Z.of_nat j)
    (Process (between (emptying threads base j m)) out None)
  = (Done tt,
     Process (between (emptying threads base (j + n) m))
       (out ++ ((λ i, Printf "Continuing thread %d.\n" [i])
                  <$> seqZ (base + Z.of_nat j) (Z.of_nat n))) None,
     mjoin ((λ k, continue_trace k (threads (base + k)))
              <$> seqZ (Z.of_nat j) (Z.of_nat n))).
Proof.
  intros Hn Hbase Hmax Hm. revert j out Hn.
  induction n as [|n IH]; intros j out Hn Hnz Hfine.
  - rewrite Nat.add_0_r, !seqZ_nil, app_nil_r by lia. done.
  - cbn [continue_threads]. unfold mbind, P_bind, bindP, printf, in_globals.
    cbn [globals printed failure].
    rewrite (thd_continue_found _ _ (between (emptying threads base j m))
               (emptying threads base j m) j); [|
      apply ready_between; [apply length_emptying; lia|done] |
      apply emptying_found; lia |
      intros k y Hk ->%emptying_lookup; [|lia];
        apply not_eq_sym, Hnz; lia].
    rewrite (decide_False (P := kill_status _ ≠ 0))
      by (rewrite Hfine by lia; by intros H).
    rewrite decide_False by (by intros H).
    rewrite int_succ_lt, emptying_insert by lia.
    change (set_array _ (between _))
      with (between (emptying threads base (S j) m)).
    replace (base + Z.of_nat j + 1) with (base + Z.of_nat (S j)) by lia.
    rewrite IH; [|lia|intros; apply Hnz; lia|intros; apply Hfine; lia].
    rewrite (seqZ_cons (base + Z.of_nat j)), (seqZ_cons (Z.of_nat j)) by lia.
    rewrite !fmap_cons. cbn [mjoin list_join].
    replace (Z.pred (Z.of_nat (S n))) with (Z.of_nat n) by lia.
    replace (Z.succ (base + Z.of_nat j)) with (base + Z.of_nat (S j)) by lia.
    replace (Z.succ (Z.of_nat j)) with (Z.of_nat (S j)) by lia.
    replace (j + S n)%nat with (S j + n)%nat by lia.
    unfold continue_trace. rewrite <- !app_assoc. reflexivity.
Qed.

Lemma fmap_seqZ_ext {B} (f g : Z → B) i n :
  (∀ k, i ≤ k < i + n → f k = g k) → f <$> seqZ i n = g <$> seqZ i n.
Proof.
  intros Hext. apply list_fmap_ext. intros j x [-> Hj]%lookup_seqZ.
  apply Hext. lia.
Qed.

Lemma filling_full threads base m :
  filling threads base 10 m = emptying threads base 0 m.
Proof. unfold filling, emptying. cbn. by rewrite app_nil_r, Z.add_0_r. Qed.

Lemma emptying_done threads base base' m :
  emptying threads base 10 m = filling threads base' 0 m.
Proof. unfold filling, emptying. by rewrite !seqZ_nil by lia. Qed.

(** The first loop of [main] over [thd_suspend] starts in the initial
    state: its first call initialises the package. *)
Lemma suspend_threads_first me m threads (n : nat) out :
  (n < 10)%nat → Z.of_nat (10 + length m) < INT_MAX →
  calloc_answer (suspend_env me 0) = Some m →
  sigaction_status (suspend_env me 0) SIGUSR1 ≠ -1 →
  sigaction_status (suspend_env me 0) SIGUSR2 ≠ -1 →
  (∀ k, 0 ≤ k < Z.of_nat (S n) → threads k ≠ 0) →
  (∀ k k', 0 ≤ k < k' → k' < Z.of_nat (S n) → threads k ≠ threads k') →
  (∀ k, 0 ≤ k < Z.of_nat (S n) →
        kill_status (suspend_env me k) = 0 ∧
        handler_runs (suspend_env me k) = true) →
  suspend_threads me threads (S n) 0 (Process initial_state out None)
  = (Done tt,
     Process (between (filling threads 0 (S n) m))
       (out ++ ((λ i, Printf "Suspending thread %d.\n" [i])
                  <$> seqZ 0 (Z.of_nat (S n)))) None,
     [EvCalloc 10; EvSigaction SIGUSR1; EvSigaction SIGUSR2]
       ++ mjoin ((λ k, suspend_trace k (threads (0 + k)))
                   <$> seqZ 0 (Z.of_nat (S n)))).
Proof.
  intros Hn Hm Hcalloc Hs1 Hs2 Hnz Hinj Hfine.
  cbn [suspend_threads]. unfold mbind, P_bind, bindP, printf, in_globals.
  cbn [globals printed failure].
  destruct (Hfine 0) as [Hkill Hruns]; [lia|].
  rewrite (thd_suspend_first_run _ _ m);
    [|done|done|done|done|done|apply Hnz; lia].
  rewrite decide_False by (by intros H).
  change (int_succ 0) with (0 + Z.of_nat 1).
  change (between (Block (threads 0 :: replicate 9 0) m))
    with (between (filling threads 0 1 m)).
  rewrite (suspend_threads_run me m threads 0 n 1);
    [|lia|lia|done|done|intros; apply Hnz; lia|intros; apply Hinj; lia|
      intros; apply Hfine; lia].
  rewrite (seqZ_cons 0 (Z.of_nat (S n))) by lia.
  rewrite !fmap_cons. cbn [mjoin list_join].
  replace (Z.pred (Z.of_nat (S n))) with (Z.of_nat n) by lia.
  change (Z.succ 0) with (Z.of_nat 1). change (0 + Z.of_nat 1) with (Z.of_nat 1).
  change (0 + 0) with 0. change (Z.of_nat 0) with 0.
  rewrite <- !app_assoc. reflexivity.
Qed.

(** The run of [main] when nothing fails. *)
Lemma main_run me m :
  main_env_fine me m →
  main me initial_process
  = (Done tt, Process (between (Block (replicate 10 0) m)) main_output None,
     main_trace (created me)).
Proof.
  intros (Hattr & Hdetach & Hcalloc & Hs1 & Hs2 & Hm & Hall).
  assert (∀ i j, 0 ≤ i < j → j < THREAD_COUNT → created me i ≠ created me j)
    as Hdistinct.
  { intros i j Hi Hj Heq.
    destruct (Hall i) as (_ & _ & _ & _ & _ & Hinj); [lia|].
    specialize (Hinj j ltac:(lia) Heq). lia. }
  assert (∀ k, 0 ≤ k < 20 → create_status me k = 0) as Hcs
    by (intros k Hk; by destruct (Hall k Hk) as (? & ? & ? & ? & ? & ?)).
  assert (∀ k, 0 ≤ k < 20 → created me k ≠ 0) as Hcnz
    by (intros k Hk; by destruct (Hall k Hk) as (? & ? & ? & ? & ? & ?)).
  assert (∀ k, 0 ≤ k < 20 →
            kill_status (suspend_env me k) = 0 ∧
            handler_runs (suspend_env me k) = true) as Hsus
    by (intros k Hk; by destruct (Hall k Hk) as (? & ? & ? & ? & ? & ?)).
  assert (∀ k, 0 ≤ k < 20 → kill_status (continue_env me k) = 0) as Hcon
    by (intros k Hk; by destruct (Hall k Hk) as (? & ? & ? & ? & ? & ?)).
  clear Hall.
  destruct (create_threads_run me 20 0 (stack me) initial_process)
    as (threads & Hcreate & Hids & _);
    [done|done|intros; apply Hcs; lia|].
  unfold main, mbind, P_bind, bindP, pthread_attr_init,
    pthread_attr_setdetachstate, sleep, pthread_exit.
  cbn [mret P_ret retP]. rewrite Hattr, Hdetach.
  rewrite !decide_False by (by intros H).
  change (Z.to_nat THREAD_COUNT) with 20%nat. rewrite Hcreate.
  change (Z.to_nat (THREAD_COUNT / 2)) with (S 9).
  change (Z.to_nat (THREAD_COUNT - THREAD_COUNT / 2)) with (0 + 10)%nat.
  change (THREAD_COUNT / 2) with (10 + Z.of_nat 0).
  unfold initial_process.
  assert (∀ k, 0 ≤ k < 20 → threads k ≠ 0) as Hnz.
  { intros k Hk. rewrite Hids by lia. by apply Hcnz. }
  assert (∀ k k', 0 ≤ k < k' → k' < 20 → threads k ≠ threads k') as Hinj.
  { intros k k' Hk Hk'. rewrite !Hids by lia. by apply Hdistinct. }
  rewrite (suspend_threads_first me m threads 9);
    [|lia|done|done|done|done|intros; apply Hnz; lia|
      intros; apply Hinj; lia|intros; apply Hsus; lia].
  cbn [printf globals printed failure].
  rewrite filling_full.
  change (S 9) with (0 + 10)%nat at 1.
  change 0 with (0 + Z.of_nat 0) at 1.
  rewrite (continue_threads_run me m threads _ 0 10 0);
    [|lia|done|done|done|intros; apply Hnz; lia|intros; apply Hcon; lia].
  rewrite (emptying_done threads 0 10).
  rewrite (suspend_threads_run me m threads 10 10 0);
    [|lia|done|done|done|intros; apply Hnz; lia|intros; apply Hinj; lia|
      intros; apply Hsus; lia].
  cbn [printf globals printed failure].
  rewrite filling_full.
  rewrite (continue_threads_run me m threads _ 10 10 0);
    [|lia|done|done|done|intros; apply Hnz; lia|intros; apply Hcon; lia].
  rewrite (emptying_done threads 10 0).
  apply (f_equal2 pair); [apply (f_equal2 pair); [done|]|].
  - apply (f_equal (λ out, Process _ out None)).
    unfold main_output, suspending, continuing. rewrite <- !app_assoc.
    reflexivity.
  - unfold main_trace, suspend_phase, continue_phase.
    rewrite !app_nil_r, <- !app_assoc.
    rewrite !(fmap_seqZ_ext (λ k, suspend_trace k (threads _))
                (λ k, suspend_trace k (created me _)))
      by (intros; rewrite Hids by lia; done).
    rewrite !(fmap_seqZ_ext (λ k, continue_trace k (threads _))
                (λ k, continue_trace k (created me _)))
      by (intros; rewrite Hids by lia; done).
    reflexivity.
Qed.

Lemma main_env_ok_fine : main_env_fine main_env_ok [0; 0].
Proof.
  repeat split; try done.
  - cbn. lia.
  - cbn. lia.
Qed.

(** ** [main] when nothing fails *)

(** When every library call succeeds, the twenty threads have distinct
    identifiers other than 0, and each of them is alive and reaches its
    handler when signalled, [main] runs to its [pthread_exit]: it prints
    its progress lines in order, it sends [SIGUSR1] to the threads 0 to 9
    in this order, then [SIGUSR2] to the same threads, then the same for
    the threads 10 to 19, and it leaves a registry of ten empty slots
    with the mutex free. *)
Theorem main_completes me m :
  main_env_fine me m →
  ∃ tr,
    main me initial_process
    = (Done tt,
       Process (State false 1 true (Some (Block (replicate 10 0) m)) 10 1 0)
         main_output None,
       tr) ∧
    signals tr
    = signal_each (created me) SIGUSR1 0 ++ signal_each (created me) SIGUSR2 0
        ++ signal_each (created me) SIGUSR1 10
        ++ signal_each (created me) SIGUSR2 10.
Proof.
  intros Hfine. exists (main_trace (created me)).
  split; [by apply main_run|]. vm_compute. reflexivity.
Qed.

Lemma main_completes_holds :
  main_env_fine main_env_ok [0; 0] ∧
  ∃ tr,
    main main_env_ok initial_process
    = (Done tt,
       Process (State false 1 true (Some (Block (replicate 10 0) [0; 0]))
                  10 1 0)
         main_output None,
       tr) ∧
    signals tr
    = signal_each (created main_env_ok) SIGUSR1 0
        ++ signal_each (created main_env_ok) SIGUSR2 0
        ++ signal_each (created main_env_ok) SIGUSR1 10
        ++ signal_each (created main_env_ok) SIGUSR2 10.
Proof.
  split; [exact main_env_ok_fine|].
  exact (main_completes main_env_ok [0; 0] main_env_ok_fine).
Defined.

(** Under the same conditions [main] keeps the package inside the ten
    slots that [calloc] gave: [calloc] is called once, for ten words,
    [realloc] is never called, [bottom] stays 10, and every index of
    [array] that is read or written lies in 0..9. *)
Theorem main_stays_in_registry me m :
  main_env_fine me m →
  let '(r, p, tr) := main me initial_process in
  callocs tr = [10] ∧ reallocs tr = [] ∧ bottom (globals p) = 10 ∧
  Forall (λ i, 0 ≤ i < 10) (accesses tr).
Proof.
  intros Hfine. rewrite (main_run me m Hfine).
  split; [by vm_compute|]. split; [by vm_compute|]. split; [done|].
  apply (bool_decide_unpack _). by vm_compute.
Qed.

Lemma main_stays_in_registry_holds :
  main_env_fine main_env_ok [0; 0] ∧
  let '(r, p, tr) := main main_env_ok initial_process in
  callocs tr = [10] ∧ reallocs tr = [] ∧ bottom (globals p) = 10 ∧
  Forall (λ i, 0 ≤ i < 10) (accesses tr).
Proof.
  split; [exact main_env_ok_fine|].
  exact (main_stays_in_registry main_env_ok [0; 0] main_env_ok_fine).
Defined.

(** ** [main] when a call fails *)

Lemma create_threads_stop me (n n' : nat) i threads p :
  0 ≤ i → i + Z.of_nat n < INT_MAX →
  (∀ k, i ≤ k < i + Z.of_nat n → create_status me k = 0) →
  create_status me (i + Z.of_nat n) ≠ 0 →
  create_threads me (n + S n') i threads p
  = (Stop Abort,
     Process (globals p) (printed p)
       (Some (create_status me (i + Z.of_nat n), "Create thread")),
     []).
Proof.
  revert i threads. induction n as [|n IH]; intros i threads Hi Hmax Hok Hbad.
  - cbn [Nat.add create_threads]. unfold mbind, P_bind, bindP, pthread_create.
    cbn [mret P_ret retP]. rewrite Z.add_0_r in Hbad |- *.
    rewrite (decide_False (P := create_status me i = 0)) by done.
    cbn [fst snd]. by rewrite decide_True by done.
  - cbn [Nat.add create_threads]. unfold mbind, P_bind, bindP, pthread_create.
    cbn [mret P_ret retP].
    rewrite (decide_True (P := create_status me i = 0)) by (apply Hok; lia).
    cbn [fst snd]. rewrite decide_False by (by intros H).
    rewrite int_succ_lt by lia.
    rewrite IH; [|lia|lia|intros; apply Hok; lia|].
    + replace (i + 1 + Z.of_nat n) with (i + Z.of_nat (S n)) by lia. done.
    + replace (i + 1 + Z.of_nat n) with (i + Z.of_nat (S n)) by lia. done.
Qed.

(** A loop over [thd_suspend] is its first [n] iterations followed by
    the others. *)
Lemma suspend_threads_app me threads (n n2 : nat) i p :
  0 ≤ i → i + Z.of_nat n < INT_MAX →
  suspend_threads me threads (n + n2) i p
  = match suspend_threads me threads n i p with
    | (Done _, p1, t1) =>
        let '(r, p2, t2) :=
          suspend_threads me threads n2 (i + Z.of_nat n) p1 in
        (r, p2, t1 ++ t2)
    | (Stop w, p1, t1) => (Stop w, p1, t1)
    end.
Proof.
  revert i p. induction n as [|n IH]; intros i p Hi Hmax.
  - cbn [Nat.add suspend_threads mret P_ret retP]. rewrite Z.add_0_r.
    by destruct (suspend_threads me threads n2 i p) as [[r p2] t2].
  - cbn [Nat.add suspend_threads]. unfold mbind, P_bind, bindP, printf, in_globals.
    cbn [globals printed failure].
    destruct (thd_suspend _ _ _) as [[[status|w] s] t]; [|done].
    case_decide; [done|].
    rewrite int_succ_lt, IH by lia.
    replace (i + 1 + Z.of_nat n) with (i + Z.of_nat (S n)) by lia.
    destruct (suspend_threads me threads n (i + 1) _) as [[[[]|w] p1] t1];
      [|done].
    destruct (suspend_threads me threads n2 _ p1) as [[r p2] t2].
    by rewrite !app_nil_l, app_assoc.
Qed.

(** The target of the first call of [thd_suspend] no longer exists. *)
Lemma thd_suspend_first_gone e T m :
  calloc_answer e = Some m →
  sigaction_status e SIGUSR1 ≠ -1 → sigaction_status e SIGUSR2 ≠ -1 →
  kill_status e ≠ 0 → T ≠ 0 →
  thd_suspend e T initial_state
  = (Done (kill_status e),
     State false 0 true (Some (Block (replicate 10 0) m)) 10 1 0,
     [EvCalloc 10; EvSigaction SIGUSR1; EvSigaction SIGUSR2]
       ++ reads 0 10 ++ reads 0 1 ++ [EvKill T SIGUSR1]).
Proof.
  intros Hcalloc Hs1 Hs2 Hkill HT.
  rewrite (thd_suspend_first e T m) by done.
  set (b := Block (replicate 10 0) m).
  set (s := State true 0 true (Some b) 10 1 0).
  unfold suspend_locked. mstep.
  rewrite (scan_suspended_miss T s b eq_refl (Z.to_nat (bottom s)) 0);
    [|lia|done|].
  2: { intros j Hj. exists 0. split; [|done].
       assert (∃ n : nat, j = Z.of_nat n) as [n ->]
         by (exists (Z.to_nat j); lia).
       rewrite peek_slots by (cbn in *; lia).
       apply lookup_replicate_2. cbn in Hj. lia. }
  mstep.
  rewrite (find_empty_hit s b eq_refl (mapped s) 0 0);
    [|lia|done|lia|lia|done].
  mstep. rewrite decide_False by done.
  rewrite (suspend_target_gone e T _ s) by done.
  reflexivity.
Qed.

(** An iteration of a loop over [thd_suspend] whose target no longer
    exists, when the first [j] threads from [base] on are recorded. *)
Lemma suspend_threads_gone me m threads base (n' j : nat) out :
  (j < 10)%nat → 0 ≤ base → base + 10 < INT_MAX →
  Z.of_nat (10 + length m) < INT_MAX →
  (∀ k, base ≤ k ≤ base + Z.of_nat j → threads k ≠ 0) →
  (∀ k, base ≤ k < base + Z.of_nat j →
        threads k ≠ threads (base + Z.of_nat j)) →
  kill_status (suspend_env me (base + Z.of_nat j)) ≠ 0 →
  suspend_threads me threads (S n') (base + Z.of_nat j)
    (Process (between (filling threads base j m)) out None)
  = (Stop Abort,
     Process (State false 0 true (Some (filling threads base j m)) 10 1 0)
       (out ++ [Printf "Suspending thread %d.\n" [base + Z.of_nat j]])
       (Some (kill_status (suspend_env me (base + Z.of_nat j)),
              "Suspend thread")),
     reads 0 10 ++ reads 0 (Z.of_nat j + 1)
       ++ [EvKill (threads (base + Z.of_nat j)) SIGUSR1]).
Proof.
  intros Hj Hbase Hmax Hm Hnz Hinj Hkill.
  cbn [suspend_threads]. unfold mbind, P_bind, bindP, printf, in_globals.
  cbn [globals printed failure].
  rewrite (thd_suspend_free_slot _ _ (between (filling threads base j m))
             (filling threads base j m) j); [|
    apply ready_between; [apply length_filling; lia|done] |
    apply filling_absent; [lia|apply Hnz; lia|done] |
    apply filling_free; lia |
    intros k y Hk ->%filling_lookup; [apply Hnz|]; lia].
  rewrite suspend_target_gone by done.
  cbn [after]. rewrite decide_True by done.
  unfold err_abort. cbn [globals printed failure].
  rewrite !app_nil_l, !app_nil_r, <- app_assoc. reflexivity.
Qed.

Lemma suspend_threads_first_gone me m threads (n' : nat) out :
  calloc_answer (suspend_env me 0) = Some m →
  sigaction_status (suspend_env me 0) SIGUSR1 ≠ -1 →
  sigaction_status (suspend_env me 0) SIGUSR2 ≠ -1 →
  threads 0 ≠ 0 → kill_status (suspend_env me 0) ≠ 0 →
  suspend_threads me threads (S n') 0 (Process initial_state out None)
  = (Stop Abort,
     Process (State false 0 true (Some (Block (replicate 10 0) m)) 10 1 0)
       (out ++ [Printf "Suspending thread %d.\n" [0]])
       (Some (kill_status (suspend_env me 0), "Suspend thread")),
     [EvCalloc 10; EvSigaction SIGUSR1; EvSigaction SIGUSR2]
       ++ reads 0 10 ++ reads 0 1 ++ [EvKill (threads 0) SIGUSR1]).
Proof.
  intros Hcalloc Hs1 Hs2 Hnz Hkill.
  cbn [suspend_threads]. unfold mbind, P_bind, bindP, printf, in_globals.
  cbn [globals printed failure].
  rewrite (thd_suspend_first_gone _ _ m) by done.
  rewrite decide_True by done. reflexivity.
Qed.

Lemma signals_suspend_traces (c : Z → pthread_t) (l : list Z) :
  signals (mjoin ((λ k, suspend_trace k (c k)) <$> l))
  = (λ k, (c k, SIGUSR1)) <$> l.
Proof.
  induction l as [|k l IH]; [done|].
  change (signals (suspend_trace k (c k)
                     ++ mjoin ((λ k, suspend_trace k (c k)) <$> l))
          = (c k, SIGUSR1) :: ((λ k, (c k, SIGUSR1)) <$> l)).
  rewrite signals_app, IH. unfold suspend_trace.
  rewrite !signals_app, !signals_reads. reflexivity.
Qed.

(** If a [pthread_create] fails, [main] stops there: the package is not
    initialised, nothing is printed and no thread is signalled. *)
Theorem main_create_fails me (k : nat) :
  attr_init_status me = 0 → setdetachstate_status me = 0 →
  Z.of_nat k < THREAD_COUNT →
  (∀ i, 0 ≤ i < Z.of_nat k → create_status me i = 0) →
  create_status me (Z.of_nat k) ≠ 0 →
  main me initial_process
  = (Stop Abort,
     Process initial_state []
       (Some (create_status me (Z.of_nat k), "Create thread")),
     []).
Proof.
  intros Hattr Hdetach Hk Hok Hbad. unfold THREAD_COUNT in Hk.
  unfold main, mbind, P_bind, bindP, pthread_attr_init,
    pthread_attr_setdetachstate.
  cbn [mret P_ret retP]. rewrite Hattr, Hdetach.
  rewrite !decide_False by (by intros H).
  change (Z.to_nat THREAD_COUNT) with 20%nat.
  replace 20%nat with (k + S (19 - k))%nat by lia.
  rewrite (create_threads_stop me k (19 - k) 0); [done|done|unfold INT_MAX; lia|..].
  - intros i Hi. apply Hok. lia.
  - by rewrite Z.add_0_l.
Qed.

Lemma main_create_fails_holds :
  main main_env_few initial_process
  = (Stop Abort,
     Process initial_state [] (Some (EAGAIN, "Create thread")), []).
Proof.
  apply (main_create_fails main_env_few 3); try done.
  intros i Hi. cbn. case_decide; [lia|done].
Defined.

(** The source notes that the program fails if a thread terminates
    during the test.  If thread [k] of the first ten has ended when
    [main] comes to suspend it, while the threads before it were stopped,
    [main] ends in [err_abort] with the status of [pthread_kill]: the
    threads 0 to [k - 1] are recorded in the registry and have received
    [SIGUSR1], and no thread has received [SIGUSR2]. *)
Theorem main_thread_gone me m (k : nat) :
  (k < 10)%nat →
  attr_init_status me = 0 → setdetachstate_status me = 0 →
  (∀ i, 0 ≤ i < THREAD_COUNT → create_status me i = 0) →
  calloc_answer (suspend_env me 0) = Some m →
  sigaction_status (suspend_env me 0) SIGUSR1 ≠ -1 →
  sigaction_status (suspend_env me 0) SIGUSR2 ≠ -1 →
  Z.of_nat (10 + length m) < INT_MAX →
  (∀ i, 0 ≤ i ≤ Z.of_nat k → created me i ≠ 0) →
  (∀ i j, 0 ≤ i < j → j ≤ Z.of_nat k → created me i ≠ created me j) →
  (∀ i, 0 ≤ i < Z.of_nat k →
        kill_status (suspend_env me i) = 0 ∧
        handler_runs (suspend_env me i) = true) →
  kill_status (suspend_env me (Z.of_nat k)) ≠ 0 →
  ∃ tr,
    main me initial_process
    = (Stop Abort,
       Process
         (State false 0 true
            (Some (Block ((created me <$> seqZ 0 (Z.of_nat k))
                            ++ replicate (10 - k) 0) m)) 10 1 0)
         ((λ i, Printf "Suspending thread %d.\n" [i])
            <$> seqZ 0 (Z.of_nat k + 1))
         (Some (kill_status (suspend_env me (Z.of_nat k)), "Suspend thread")),
       tr) ∧
    signals tr = (λ i, (created me i, SIGUSR1)) <$> seqZ 0 (Z.of_nat k + 1).
Proof.
  intros Hk Hattr Hdetach Hcs Hcalloc Hs1 Hs2 Hm Hcnz Hdistinct Hsus Hkill.
  unfold THREAD_COUNT in Hcs.
  destruct (create_threads_run me 20 0 (stack me) initial_process)
    as (threads & Hcreate & Hids & _);
    [done|done|intros; apply Hcs; lia|].
  assert (∀ i, 0 ≤ i ≤ Z.of_nat k → threads i ≠ 0) as Hnz.
  { intros i Hi. rewrite Hids by lia. by apply Hcnz. }
  assert (∀ i j, 0 ≤ i < j → j ≤ Z.of_nat k → threads i ≠ threads j) as Hinj.
  { intros i j Hi Hj. rewrite !Hids by lia. by apply Hdistinct. }
  unfold main, mbind, P_bind, bindP, pthread_attr_init,
    pthread_attr_setdetachstate, sleep.
  cbn [mret P_ret retP]. rewrite Hattr, Hdetach.
  rewrite !decide_False by (by intros H).
  change (Z.to_nat THREAD_COUNT) with 20%nat. rewrite Hcreate.
  change (Z.to_nat (THREAD_COUNT / 2)) with 10%nat.
  unfold initial_process.
  destruct k as [|k].
  - change 10%nat with (S 9).
    rewrite (suspend_threads_first_gone me m threads 9);
      [|done|done|done|apply Hnz; lia|done].
    eexists. split.
    + rewrite Hids by lia. reflexivity.
    + rewrite !app_nil_l, !signals_app, !signals_reads. reflexivity.
  - pose proof (suspend_threads_app me threads (S k) (S (9 - S k)) 0
                  (Process initial_state [] None)) as Happ.
    replace (S k + S (9 - S k))%nat with 10%nat in Happ by lia.
    rewrite Happ by (unfold INT_MAX; lia). clear Happ.
    rewrite (suspend_threads_first me m threads k);
      [|lia|done|done|done|done|intros; apply Hnz; lia|
        intros; apply Hinj; lia|intros; apply Hsus; lia].
    rewrite (suspend_threads_gone me m threads 0 _ (S k));
      [|lia|done|done|done|intros; apply Hnz; lia|
        intros; apply Hinj; lia|done].
    rewrite !Z.add_0_l, !app_nil_l.
    eexists. split.
    + apply (f_equal2 pair); [apply (f_equal2 pair); [done|]|reflexivity].
      unfold filling.
      rewrite (fmap_seqZ_ext threads (created me))
        by (intros; apply Hids; lia).
      replace (Z.of_nat (S k) + 1) with (Z.of_nat (S (S k))) by lia.
      rewrite (seqZ_S 0 (S k)), fmap_app, Z.add_0_l. reflexivity.
    + rewrite !signals_app, !signals_reads.
      rewrite (signals_suspend_traces (λ i, threads (0 + i))).
      replace (Z.of_nat (S k) + 1) with (Z.of_nat (S (S k))) by lia.
      rewrite (seqZ_S 0 (S k)), fmap_app, Z.add_0_l.
      rewrite (fmap_seqZ_ext (λ i, (threads (0 + i), SIGUSR1))
                 (λ i, (created me i, SIGUSR1)))
        by (intros; rewrite Z.add_0_l, Hids by lia; done).
      cbn. rewrite Hids by lia. reflexivity.
Qed.

Lemma main_thread_gone_holds :
  ∃ tr,
    main main_env_gone initial_process
    = (Stop Abort,
       Process
         (State false 0 true
            (Some (Block [1; 2; 3; 0; 0; 0; 0; 0; 0; 0] [0; 0])) 10 1 0)
         ((λ i, Printf "Suspending thread %d.\n" [i]) <$> [0; 1; 2; 3])
         (Some (ESRCH, "Suspend thread")),
       tr) ∧
    signals tr = [(1, SIGUSR1); (2, SIGUSR1); (3, SIGUSR1); (4, SIGUSR1)].
Proof.
  apply (main_thread_gone main_env_gone [0; 0] 3); try done.
  - lia.
  - intros i Hi. cbn. lia.
  - intros i j Hi Hj. cbn. lia.
  - intros i Hi. cbn. case_decide; [lia|done].
Defined.

(** * The worker threads *)

Lemma thread_loop_app number (n1 n2 : nat) i :
  i + Z.of_nat n1 < INT_MAX →
  thread_loop number (n1 + n2) i
  = thread_loop number n1 i ++ thread_loop number n2 (i + Z.of_nat n1).
Proof.
  revert i. induction n1 as [|n1 IH]; intros i Hmax.
  - cbn [Nat.add thread_loop app]. by rewrite Z.add_0_r.
  - cbn [Nat.add thread_loop]. rewrite int_succ_lt, IH by lia.
    rewrite <- app_assoc. do 3 f_equal. lia.
Qed.

Lemma thread_loop_lines number (n : nat) :
  Z.of_nat n < INT_MAX →
  thread_loop number n 1
  = (λ q, Printf "Thread %02d: %d\n" [number; 2000 * q])
      <$> seqZ 1 (Z.of_nat n / 2000).
Proof.
  induction n as [|n IH]; intros Hmax; [done|].
  replace (S n) with (n + 1)%nat at 1 by lia.
  rewrite thread_loop_app, IH by lia. cbn [thread_loop].
  rewrite app_nil_r, Z.rem_mod_nonneg by lia.
  assert (0 ≤ Z.of_nat n / 2000) as Hq by (apply Z.div_pos; lia).
  case_decide as Hrem.
  - assert (Z.of_nat (S n) / 2000 = Z.of_nat (S (Z.to_nat (Z.of_nat n / 2000))))
      as -> by (revert Hrem Hq; Z.div_mod_to_equations; lia).
    rewrite seqZ_S, fmap_app, Z2Nat.id by done. f_equal.
    cbn [fmap list_fmap].
    replace (2000 * (1 + Z.of_nat n / 2000)) with (1 + Z.of_nat n); [done|].
    revert Hrem Hq. Z.div_mod_to_equations. lia.
  - rewrite app_nil_r. do 2 f_equal.
    revert Hrem Hq. Z.div_mod_to_equations. lia.
Qed.

Lemma to_int_id x : INT_MIN ≤ x ≤ INT_MAX → to_int x = x.
Proof.
  unfold to_int, INT_MIN, INT_MAX. intros Hx.
  rewrite Z.mod_small by lia. lia.
Qed.

(** [thread_routine] writes one progress line at each multiple of 2000
    up to [iterations], in increasing order, and nothing else: it writes
    [iterations / 2000] lines.  Each line carries the argument narrowed to
    an [int], which is the argument itself when it is in the range of
    [int].  (The comment in the source speaks of 5000 iterations.) *)
Theorem thread_routine_lines iterations arg :
  0 ≤ iterations < INT_MAX →
  thread_routine iterations arg
  = (λ q, Printf "Thread %02d: %d\n" [to_int arg; 2000 * q])
      <$> seqZ 1 (iterations / 2000).
Proof.
  intros Hi. unfold thread_routine.
  rewrite thread_loop_lines, Z2Nat.id by lia. done.
Qed.

Lemma thread_routine_lines_holds :
  thread_routine ITERATIONS 4294967299
  = (λ q, Printf "Thread %02d: %d\n" [3; 2000 * q]) <$> seqZ 1 20.
Proof.
  assert (0 ≤ ITERATIONS < INT_MAX) as Hi by done.
  exact (thread_routine_lines ITERATIONS 4294967299 Hi).
Defined.
